(** * Symbol cache items and the Lua session bindings of rspamd

    A shallow embedding of
    - [src/libserver/symcache/symcache_item.hxx]: the cache item, its two
      specific variants, its factories and its inline member functions;
    - [src/lua/lua_session.c]: the Lua bindings of asynchronous sessions;
    - [utils/content_type_bench.c]: the benchmark of the content type
      parsers.

    C++ objects become records, member functions become functions from the
    object to its next state, and the C functions working on a [lua_State]
    become computations in a small state and error monad. *)

From stdpp Require Import base numbers option list strings gmap.

Local Open Scope Z_scope.

(* ===================================================================== *)
(** * Part I: cache items ([symcache_item.hxx])                           *)
(* ===================================================================== *)

Module Symcache.

(** Addresses of objects the item only keeps and never looks into: the
    Lua state of a condition, the callback and its user data, the pool. *)
Definition pointer := N.
Definition nullptr : pointer := 0%N.

(** [enum class symcache_item_type] *)
Inductive symcache_item_type :=
| CONNFILTER   (* Executed on connection stage *)
| PREFILTER    (* Executed before all filters *)
| FILTER       (* Normal symbol with a callback *)
| POSTFILTER   (* Executed after all filters *)
| IDEMPOTENT   (* Executed after postfilters, cannot change results *)
| CLASSIFIER   (* A virtual classifier symbol *)
| COMPOSITE    (* A virtual composite symbol *)
| VIRTUAL.     (* A virtual symbol... *)

Definition symcache_item_type_eqb (a b : symcache_item_type) : bool :=
  match a, b with
  | CONNFILTER, CONNFILTER | PREFILTER, PREFILTER | FILTER, FILTER
  | POSTFILTER, POSTFILTER | IDEMPOTENT, IDEMPOTENT
  | CLASSIFIER, CLASSIFIER | COMPOSITE, COMPOSITE | VIRTUAL, VIRTUAL => true
  | _, _ => false
  end.

(** [struct item_condition]: a Lua state and a reference to a Lua callback
    in its registry. The struct has a constructor and a destructor only. *)
Record item_condition := mk_item_condition {
  cond_L : pointer;
  cond_cb : Z
}.

(** [class normal_item] *)
Record normal_item := mk_normal_item {
  func : pointer;
  user_data : pointer;
  conditions : list item_condition
}.

(** [cache_item_ptr] is a [std::shared_ptr<cache_item>]: either empty or
    sharing an item of the cache, which is named here by its id. *)
Definition cache_item_ptr := option Z.

(** [class virtual_item] *)
Record virtual_item := mk_virtual_item {
  parent_id : Z;
  parent : cache_item_ptr
}.

(** [struct cache_dependency] *)
Record cache_dependency := mk_cache_dependency {
  dep_item : cache_item_ptr;  (* Real dependency *)
  dep_sym : string;           (* Symbolic dep name *)
  dep_id : Z;                 (* Real from *)
  dep_vid : Z                 (* Virtual from *)
}.

(** Modelled from the spec: [struct rspamd_symcache_item_stat] is declared
    in [rspamd_symcache.h], which is not among the sources. The spec lists
    the shared counters of an item as hits, misses, total_time, frequency
    and peaks (data model) and as hits, misses, skips and total_time
    (statistics); the record has them all. Each is one machine word read
    as an unsigned number. *)
Record rspamd_symcache_item_stat := mk_stat {
  hits : Z;
  misses : Z;
  skips : Z;
  total_time : Z;
  frequency : Z;
  peaks : Z
}.

(** [struct rspamd_counter_data] is declared outside the sources as well
    and no member function of the item reads or writes it: all that is
    known of the block is that the allocation zeroes it. *)
Inductive rspamd_counter_data := counter_data_zeroed.

(** Modelled from the spec: [id_list] comes from [symcache_id_list.hxx],
    which is not among the sources. The spec describes it as a compact set
    of 32-bit ids; [reset] is taken to drop every id. *)
Definition id_list := list Z.
Definition id_list_new : id_list := [].
Definition id_list_reset (l : id_list) : id_list := [].
Definition id_list_empty (l : id_list) : bool :=
  match l with [] => true | _ => false end.

(** [std::variant<normal_item, virtual_item>] *)
Inductive specific_data :=
| Normal (n : normal_item)
| Virtual (v : virtual_item).

(** [struct cache_item]. The [st] and [cd] pointers are set by both
    constructors to blocks of their own and never reassigned, so the item
    carries the blocks themselves. *)
Record cache_item := mk_cache_item {
  st : rspamd_symcache_item_stat;
  cd : rspamd_counter_data;
  id : Z;
  last_count : Z;
  symbol : string;
  type : symcache_item_type;
  flags : Z;
  enabled : bool;
  priority : Z;
  order : Z;
  frequency_peaks : Z;
  specific : specific_data;
  allowed_ids : id_list;
  exec_only_ids : id_list;
  forbidden_ids : id_list;
  deps : list cache_dependency;
  rdeps : list cache_dependency
}.

Definition set_specific (it : cache_item) (s : specific_data) : cache_item :=
  {| st := st it; cd := cd it; id := id it; last_count := last_count it;
     symbol := symbol it; type := type it; flags := flags it;
     enabled := enabled it; priority := priority it; order := order it;
     frequency_peaks := frequency_peaks it; specific := s;
     allowed_ids := allowed_ids it; exec_only_ids := exec_only_ids it;
     forbidden_ids := forbidden_ids it; deps := deps it; rdeps := rdeps it |}.

Definition set_st (it : cache_item) (s : rspamd_symcache_item_stat) : cache_item :=
  {| st := s; cd := cd it; id := id it; last_count := last_count it;
     symbol := symbol it; type := type it; flags := flags it;
     enabled := enabled it; priority := priority it; order := order it;
     frequency_peaks := frequency_peaks it; specific := specific it;
     allowed_ids := allowed_ids it; exec_only_ids := exec_only_ids it;
     forbidden_ids := forbidden_ids it; deps := deps it; rdeps := rdeps it |}.

(** [rspamd_mempool_alloc0_shared_type (pool, T)]: a fresh block of the
    pool's shared memory, filled with zero bytes. *)
Definition alloc0_stat (pool : pointer) : rspamd_symcache_item_stat :=
  {| hits := 0; misses := 0; skips := 0; total_time := 0;
     frequency := 0; peaks := 0 |}.
Definition alloc0_counter_data (pool : pointer) : rspamd_counter_data :=
  counter_data_zeroed.

(** The constructor for a normal symbol with a callback, reached through
    [cache_item::create_with_function]. Members without a mem-initializer
    take their default member initializer. *)
Definition create_with_function (pool : pointer) (_id : Z) (name : string)
    (_priority : Z) (func : pointer) (user_data : pointer)
    (_type : symcache_item_type) (_flags : Z) : cache_item :=
  {| st := alloc0_stat pool;
     cd := alloc0_counter_data pool;
     id := _id;
     last_count := 0;
     symbol := name;
     type := _type;
     flags := _flags;
     enabled := true;
     priority := _priority;
     order := 0;
     frequency_peaks := 0;
     specific := Normal (mk_normal_item func user_data []);
     allowed_ids := id_list_reset id_list_new;
     exec_only_ids := id_list_reset id_list_new;
     forbidden_ids := id_list_reset id_list_new;
     deps := [];
     rdeps := [] |}.

(** The constructor for a virtual symbol, reached through
    [cache_item::create_with_virtual]. No priority is passed: the member
    keeps its default. *)
Definition create_with_virtual (pool : pointer) (_id : Z) (name : string)
    (parent : Z) (_type : symcache_item_type) (_flags : Z) : cache_item :=
  {| st := alloc0_stat pool;
     cd := alloc0_counter_data pool;
     id := _id;
     last_count := 0;
     symbol := name;
     type := _type;
     flags := _flags;
     enabled := true;
     priority := 0;
     order := 0;
     frequency_peaks := 0;
     specific := Virtual (mk_virtual_item parent None);
     allowed_ids := id_list_reset id_list_new;
     exec_only_ids := id_list_reset id_list_new;
     forbidden_ids := id_list_reset id_list_new;
     deps := [];
     rdeps := [] |}.

(** [cache_item::is_virtual] *)
Definition is_virtual (it : cache_item) : bool :=
  match specific it with Virtual _ => true | Normal _ => false end.

(** [cache_item::is_filter] *)
Definition is_filter (it : cache_item) : bool :=
  match specific it with Normal _ => true | Virtual _ => false end
  && symcache_item_type_eqb (type it) FILTER.

(** [cache_item::is_scoreable] *)
Definition is_scoreable (it : cache_item) : bool :=
  symcache_item_type_eqb (type it) FILTER
  || is_virtual it
  || symcache_item_type_eqb (type it) COMPOSITE
  || symcache_item_type_eqb (type it) CLASSIFIER.

Definition get_type (it : cache_item) : symcache_item_type := type it.
Definition get_name (it : cache_item) : string := symbol it.
Definition get_flags (it : cache_item) : Z := flags it.

(** [normal_item::add_condition]: [conditions.emplace_back (L, cbref)],
    as far as the callback data goes: the elements of the vector after the
    call. What the call does to the Lua state when the vector has to grow
    is followed in [SymcacheLua]. *)
Definition normal_item_add_condition (L : pointer) (cbref : Z)
    (n : normal_item) : normal_item :=
  {| func := func n; user_data := user_data n;
     conditions := conditions n ++ [mk_item_condition L cbref] |}.

(** [normal_item::call]: the body holds a TODO comment and no statement. *)
Definition normal_item_call (n : normal_item) : normal_item := n.

(** [cache_item::add_condition]: the returned flag and the item afterwards *)
Definition add_condition (L : pointer) (cbref : Z) (it : cache_item)
    : bool * cache_item :=
  if negb (is_virtual it) then
    match specific it with
    | Normal normal =>
        (true, set_specific it (Normal (normal_item_add_condition L cbref normal)))
    | Virtual _ => (false, it)  (* std::get would throw; excluded by the test *)
    end
  else (false, it).

(** [g_atomic_int_inc] of GLib adds one to a 32-bit word, wrapping around. *)
Definition g_atomic_int_inc (v : Z) : Z := (v + 1) mod 2 ^ 32.

(** [cache_item::inc_frequency]: [g_atomic_int_inc (&st->hits)] *)
Definition inc_frequency (it : cache_item) : cache_item :=
  set_st it
    {| hits := g_atomic_int_inc (hits (st it));
       misses := misses (st it); skips := skips (st it);
       total_time := total_time (st it);
       frequency := frequency (st it); peaks := peaks (st it) |}.

(** [normal_item::call] on the callback data of an item, reached as
    [add_condition] reaches [normal_item::add_condition]; a virtual item
    has no callback data to call. *)
Definition call (it : cache_item) : option cache_item :=
  match specific it with
  | Normal normal => Some (set_specific it (Normal (normal_item_call normal)))
  | Virtual _ => None
  end.

(** ** Creation and histories of an item *)

(** The two ways the sources offer to obtain an item. *)
Inductive item_creation :=
| with_function (pool : pointer) (_id : Z) (name : string) (_priority : Z)
    (func : pointer) (user_data : pointer) (_type : symcache_item_type)
    (_flags : Z)
| with_virtual (pool : pointer) (_id : Z) (name : string) (parent : Z)
    (_type : symcache_item_type) (_flags : Z).

Definition create (c : item_creation) : cache_item :=
  match c with
  | with_function pool i name prio f ud ty fl =>
      create_with_function pool i name prio f ud ty fl
  | with_virtual pool i name par ty fl =>
      create_with_virtual pool i name par ty fl
  end.

(** The member functions that change an item and have a body in the
    sources, [call] being reached through the callback data. A virtual
    item has none: a call there changes nothing of the item (in the
    program [std::get] throws before anything is touched). *)
Inductive item_op :=
| op_add_condition (L : pointer) (cbref : Z)
| op_inc_frequency
| op_call.

Definition apply_op (it : cache_item) (o : item_op) : cache_item :=
  match o with
  | op_add_condition L cbref => (add_condition L cbref it).2
  | op_inc_frequency => inc_frequency it
  | op_call => default it (call it)
  end.

Definition run_ops (ops : list item_op) (it : cache_item) : cache_item :=
  foldl apply_op it ops.

(** Modelled from the spec: a condition predicate returns true, false or
    skip. No function of the sources runs the Lua callback of an
    [item_condition]; what it would answer is given from outside. *)
Inductive condition_result := cond_true | cond_false | cond_skip.

(** Modelled from the spec: conditions are looked at in registration
    order, and the first one that does not return true decides. *)
Fixpoint first_refusal (answer : item_condition → condition_result)
    (cs : list item_condition) : option condition_result :=
  match cs with
  | [] => None
  | c :: cs' =>
      match answer c with
      | cond_true => first_refusal answer cs'
      | r => Some r
      end
  end.

(** Modelled from the spec: [class symcache] is only declared in the
    sources. The spec's registry owns a vector from ids to items, with
    ids dense from 0. *)
Definition symcache := list cache_item.

Definition item_by_id (cache : symcache) (i : Z) : option cache_item :=
  if 0 <=? i then cache !! Z.to_nat i else None.

(** Modelled from the spec: the scheduler, which is not among the
    sources, ends every evaluation of an item in one of hit, miss and
    skip and the counters of the item record it. A hit is recorded by
    [inc_frequency], the one counter update the sources hold; a miss and a
    skip raise their counter by one and the time spent is added to
    total_time. The spec gives misses, skips and total_time no width, and
    none is put on them here. *)
Inductive eval_outcome := eval_hit | eval_miss | eval_skip.

Definition record_evaluation (o : eval_outcome) (elapsed : N)
    (it : cache_item) : cache_item :=
  let it1 :=
    match o with
    | eval_hit => inc_frequency it
    | eval_miss =>
        set_st it
          {| hits := hits (st it);
             misses := misses (st it) + 1;
             skips := skips (st it); total_time := total_time (st it);
             frequency := frequency (st it); peaks := peaks (st it) |}
    | eval_skip =>
        set_st it
          {| hits := hits (st it); misses := misses (st it);
             skips := skips (st it) + 1;
             total_time := total_time (st it);
             frequency := frequency (st it); peaks := peaks (st it) |}
    end in
  set_st it1
    {| hits := hits (st it1); misses := misses (st it1);
       skips := skips (st it1);
       total_time := total_time (st it1) + Z.of_N elapsed;
       frequency := frequency (st it1); peaks := peaks (st it1) |}.

(** What the counters of an item see of a run: its evaluations, one
    after the other, each with its outcome and the time it took. *)
Inductive run_event :=
| ev_evaluated (o : eval_outcome) (elapsed : N).

Definition apply_event (it : cache_item) (e : run_event) : cache_item :=
  match e with
  | ev_evaluated o elapsed => record_evaluation o elapsed it
  end.

Definition run_events (evs : list run_event) (it : cache_item) : cache_item :=
  foldl apply_event it evs.

Definition is_hit (e : run_event) : bool :=
  match e with ev_evaluated eval_hit _ => true | _ => false end.

(** The number of evaluations in a history, and how many of them were
    hits. *)
Definition evaluations (evs : list run_event) : Z := Z.of_nat (length evs).

Definition hits_recorded (evs : list run_event) : Z :=
  Z.of_nat (length (filter (λ e, is_hit e = true) evs)).

End Symcache.

(* ===================================================================== *)
(** * Part II: the Lua session bindings ([lua_session.c])                 *)
(* ===================================================================== *)

Module LuaSession.

Definition pointer := N.
Definition NULL : pointer := 0%N.

(** The payload of a full userdata of the bindings: the class its
    metatable names, once set, and the one pointer the block is sized for
    ([sizeof (gpointer)]), once stored. *)
Record udata := mk_udata {
  ud_class : option string;
  ud_content : option pointer
}.

(** Lua values as the C API tells them apart. *)
Inductive lua_value :=
| LNil
| LBoolean (b : bool)
| LNumber (n : Z)
| LString (s : string)
| LFunction (f : N)
| LUserdata (u : udata).

(** The part of a [lua_State] a C function sees: the stack of its call
    (index 1 first, the top last) and the registry table under integer
    keys, with the next key [luaL_ref] hands out. *)
Record lua_State := mk_lua_State {
  stack : list lua_value;
  registry : gmap Z lua_value;
  next_ref : Z
}.

(** [struct lua_session_udata] *)
Record lua_session_udata := mk_lua_session_udata {
  sud_L : pointer;
  cbref_fin : Z;
  cbref_restore : Z;
  cbref_cleanup : Z;
  pool : pointer;
  session : pointer
}.

(** [struct lua_event_udata] *)
Record lua_event_udata := mk_lua_event_udata {
  eud_L : pointer;
  cbref : Z;
  eud_session : pointer
}.

(** The finalizers this file passes to a session. *)
Inductive event_finalizer := lua_event_fin.

(** Modelled from the spec: [struct rspamd_async_session] and its
    functions belong to the asynchronous session code, which is not among
    the sources. The spec gives a session the operations
    register_event (finalizer, opaque) and remove_event (opaque) and calls
    the registered events outstanding: a session is the list of its
    outstanding events. *)
Record rspamd_async_event := mk_async_event {
  fin : event_finalizer;
  ev_user_data : pointer;
  subsystem : string
}.
Definition rspamd_async_session := list rspamd_async_event.

(** What the bindings work on: the Lua state, the objects their pointers
    lead to, the allocation mark of the memory pool and the log. *)
Record world := mk_world {
  lua : lua_State;
  lua_addr : pointer;
  session_udata : gmap pointer lua_session_udata;
  event_udata : gmap pointer lua_event_udata;
  sessions : gmap pointer rspamd_async_session;
  finalized : list (event_finalizer * pointer);
  brk : pointer;
  log : list string
}.

Definition set_lua (w : world) (l : lua_State) : world :=
  {| lua := l; lua_addr := lua_addr w; session_udata := session_udata w;
     event_udata := event_udata w; sessions := sessions w;
     finalized := finalized w; brk := brk w; log := log w |}.

Definition set_stack (w : world) (s : list lua_value) : world :=
  set_lua w {| stack := s; registry := registry (lua w);
               next_ref := next_ref (lua w) |}.

Definition set_event_udata (w : world) (h : gmap pointer lua_event_udata)
    (b : pointer) : world :=
  {| lua := lua w; lua_addr := lua_addr w; session_udata := session_udata w;
     event_udata := h; sessions := sessions w;
     finalized := finalized w; brk := b; log := log w |}.

Definition set_sessions (w : world) (s : gmap pointer rspamd_async_session)
    (f : list (event_finalizer * pointer)) : world :=
  {| lua := lua w; lua_addr := lua_addr w; session_udata := session_udata w;
     event_udata := event_udata w; sessions := s;
     finalized := f; brk := brk w; log := log w |}.

Definition set_log (w : world) (l : list string) : world :=
  {| lua := lua w; lua_addr := lua_addr w; session_udata := session_udata w;
     event_udata := event_udata w; sessions := sessions w;
     finalized := finalized w; brk := brk w; log := l |}.

(** ** Outcomes of a C function called by Lua *)

(** A computation ends with a value, raises a Lua error ([lua_error] jumps
    out of the C function) or goes through a pointer that leads nowhere. *)
Inductive result (A : Type) :=
| Ok (a : A) (w : world)
| LuaError (msg : string) (w : world)
| Fault.
Arguments Ok {A} a w.
Arguments LuaError {A} msg w.
Arguments Fault {A}.

Definition M (A : Type) : Type := world → result A.

Definition ret {A} (a : A) : M A := λ w, Ok a w.
Definition bind {A B} (m : M A) (k : A → M B) : M B :=
  λ w, match m w with
       | Ok a w' => k a w'
       | LuaError msg w' => LuaError msg w'
       | Fault => Fault
       end.
Definition get : M world := λ w, Ok w w.
Definition modify (f : world → world) : M unit := λ w, Ok tt (f w).
Definition raise {A} (msg : string) : M A := λ w, LuaError msg w.
Definition fault {A} : M A := λ _, Fault.

Notation "x <- m ;; k" := (bind m (λ x, k))
  (at level 100, m at next level, right associativity).
Notation "m ;;; k" := (bind m (λ _, k))
  (at level 100, right associativity).

(** ** The Lua C API, as far as the bindings use it *)

(** The value at an acceptable index, if the index is valid. *)
Definition index2value (l : lua_State) (idx : Z) : option lua_value :=
  if 0 <? idx then stack l !! Z.to_nat (idx - 1)
  else if idx <? 0 then
    let n := Z.of_nat (length (stack l)) + idx in
    if 0 <=? n then stack l !! Z.to_nat n else None
  else None.

Definition lua_gettop : M Z :=
  w <- get ;; ret (Z.of_nat (length (stack (lua w)))).

Definition lua_push (v : lua_value) : M unit :=
  modify (λ w, set_stack w (stack (lua w) ++ [v])).

Definition lua_pushnil : M unit := lua_push LNil.

(** [lua_pushvalue]: an index above the top reads as nil. *)
Definition lua_pushvalue (idx : Z) : M unit :=
  w <- get ;; lua_push (default LNil (index2value (lua w) idx)).

Definition lua_isfunction (idx : Z) : M bool :=
  w <- get ;;
  ret (match index2value (lua w) idx with
       | Some (LFunction _) => true
       | _ => false
       end).

(** [luaL_ref (L, LUA_REGISTRYINDEX)]: pops the top; nil is not stored and
    answers [LUA_REFNIL]; any other value goes under a key not in use. *)
Definition LUA_REFNIL : Z := -1.
Definition luaL_ref : M Z :=
  w <- get ;;
  match reverse (stack (lua w)) with
  | [] => fault
  | LNil :: below =>
      modify (λ w, set_stack w (reverse below)) ;;; ret LUA_REFNIL
  | v :: below =>
      let r := next_ref (lua w) in
      modify (λ w, set_lua w {| stack := reverse below;
                                registry := <[r := v]> (registry (lua w));
                                next_ref := r + 1 |}) ;;;
      ret r
  end.

(** [lua_newuserdata]: pushes a block with no metatable and no content. *)
Definition lua_newuserdata : M unit :=
  lua_push (LUserdata (mk_udata None None)).

(** Position in the stack list of a valid index. *)
Definition index2pos (l : lua_State) (idx : Z) : option nat :=
  if 0 <? idx then
    if idx <=? Z.of_nat (length (stack l)) then Some (Z.to_nat (idx - 1)) else None
  else if idx <? 0 then
    let n := Z.of_nat (length (stack l)) + idx in
    if 0 <=? n then Some (Z.to_nat n) else None
  else None.

Definition update_udata (f : udata → udata) (idx : Z) : M unit :=
  w <- get ;;
  match index2pos (lua w) idx with
  | Some i =>
      match stack (lua w) !! i with
      | Some (LUserdata u) =>
          modify (λ w, set_stack w (<[i := LUserdata (f u)]> (stack (lua w))))
      | _ => ret tt
      end
  | None => ret tt
  end.

(** [luaL_argcheck (L, cond, narg, extramsg)] *)
Definition luaL_argcheck (cond : bool) (narg : Z) (extramsg : string) : M unit :=
  if cond then ret tt else raise extramsg.

(** ** Helpers of the host that the file calls *)

(** [rspamd_lua_setclass (L, classname, objidx)] gives the object the
    metatable registered under the class name. *)
Definition rspamd_lua_setclass (classname : string) (objidx : Z) : M unit :=
  update_udata (λ u, mk_udata (Some classname) (ud_content u)) objidx.

(** [*pdata = p] for the block [lua_newuserdata] returned, which is the
    top of the stack when the bindings store into it. *)
Definition store_udata (p : pointer) : M unit :=
  update_udata (λ u, mk_udata (ud_class u) (Some p)) (-1).

(** [rspamd_mempool_alloc]: a block the pool has not handed out before;
    its content is indeterminate until assigned. *)
Definition rspamd_mempool_alloc_event_udata (pool : pointer) : M pointer :=
  w <- get ;;
  let p := (brk w + 1)%N in
  modify (λ w, set_event_udata w
                 (<[p := mk_lua_event_udata NULL 0 NULL]> (event_udata w)) p) ;;;
  ret p.

Definition assign_event_udata (p : pointer)
    (f : lua_event_udata → lua_event_udata) : M unit :=
  w <- get ;;
  match event_udata w !! p with
  | Some e => modify (λ w, set_event_udata w (<[p := f e]> (event_udata w)) (brk w))
  | None => fault
  end.

(** [msg_err]: one more line in the log. *)
Definition msg_err (line : string) : M unit :=
  modify (λ w, set_log w (log w ++ [line])).

(** [g_quark_from_static_string]: the subsystem is kept by its name. *)
Definition g_quark_from_static_string (s : string) : string := s.

(** Modelled from the spec: register_event (finalizer, opaque) makes one
    more event outstanding in the session. *)
Definition rspamd_session_add_event (s : pointer) (f : event_finalizer)
    (ud : pointer) (subsys : string) : M unit :=
  w <- get ;;
  match sessions w !! s with
  | Some evs =>
      modify (λ w, set_sessions w
                     (<[s := evs ++ [mk_async_event f ud subsys]]> (sessions w))
                     (finalized w))
  | None => fault
  end.

Definition event_matches (f : event_finalizer) (ud : pointer)
    (e : rspamd_async_event) : bool :=
  match fin e, f with lua_event_fin, lua_event_fin => true end
  && (ev_user_data e =? ud)%N.

Fixpoint remove_first_event (f : event_finalizer) (ud : pointer)
    (evs : list rspamd_async_event) : option (list rspamd_async_event) :=
  match evs with
  | [] => None
  | e :: evs' =>
      if event_matches f ud e then Some evs'
      else option_map (cons e) (remove_first_event f ud evs')
  end.

(** Modelled from the spec: remove_event (opaque) takes the event with this
    finalizer and opaque value out of the outstanding ones and runs its
    finalizer; a session without such an event stays as it is. *)
Definition rspamd_session_remove_event (s : pointer) (f : event_finalizer)
    (ud : pointer) : M unit :=
  w <- get ;;
  match sessions w !! s with
  | Some evs =>
      match remove_first_event f ud evs with
      | Some evs' =>
          modify (λ w, set_sessions w (<[s := evs']> (sessions w))
                         (finalized w ++ [(f, ud)]))
      | None => ret tt
      end
  | None => fault
  end.

Section Bindings.

(** [rspamd_lua_check_udata (L, pos, classname)] is defined with the other
    Lua helpers of the host, outside the sources: it answers the userdata
    block at [pos] when that is of the class, and [NULL] otherwise. The
    bindings are parametric in it. *)
Variable rspamd_lua_check_udata : lua_State → Z → string → option udata.

(** Reading the pointer a userdata block holds. *)
Definition read_udata (ud : option udata) : M pointer :=
  match ud with
  | Some u => match ud_content u with Some p => ret p | None => fault end
  | None => ret NULL
  end.

(** [cbd->session] *)
Definition session_of (cbd : pointer) : M pointer :=
  w <- get ;;
  match session_udata w !! cbd with
  | Some c => ret (session c)
  | None => fault
  end.

Definition pool_of (cbd : pointer) : M pointer :=
  w <- get ;;
  match session_udata w !! cbd with
  | Some c => ret (pool c)
  | None => fault
  end.

(** [lua_check_session] *)
Definition lua_check_session : M pointer :=
  w <- get ;;
  let ud := rspamd_lua_check_udata (lua w) 1 "rspamd{session}" in
  luaL_argcheck (bool_decide (is_Some ud)) 1 "'session' expected" ;;;
  read_udata ud.

(** [lua_check_event] *)
Definition lua_check_event (pos : Z) : M pointer :=
  w <- get ;;
  let ud := rspamd_lua_check_udata (lua w) pos "rspamd{event}" in
  luaL_argcheck (bool_decide (is_Some ud)) 1 "'event' expected" ;;;
  read_udata ud.

(** [lua_session_register_async_event]: the number of results *)
Definition lua_session_register_async_event : M Z :=
  cbd <- lua_check_session ;;
  session <- session_of cbd ;;
  (if negb (session =? NULL)%N then
     isf <- lua_isfunction 1 ;;
     if isf : bool then
       pool <- pool_of cbd ;;
       cbdata <- rspamd_mempool_alloc_event_udata pool ;;
       w <- get ;;
       assign_event_udata cbdata
         (λ e, mk_lua_event_udata (lua_addr w) (cbref e) (eud_session e)) ;;;
       lua_pushvalue 1 ;;;
       r <- luaL_ref ;;
       assign_event_udata cbdata
         (λ e, mk_lua_event_udata (eud_L e) r (eud_session e)) ;;;
       assign_event_udata cbdata
         (λ e, mk_lua_event_udata (eud_L e) (cbref e) session) ;;;
       rspamd_session_add_event session lua_event_fin cbdata
         (g_quark_from_static_string "lua event") ;;;
       lua_newuserdata ;;;
       rspamd_lua_setclass "rspamd{event}" (-1) ;;;
       store_udata cbdata
     else
       msg_err "invalid finalizer argument to register async event"
   else ret tt) ;;;
  lua_pushnil ;;;
  ret 1.

(** [lua_session_remove_normal_event] *)
Definition lua_session_remove_normal_event : M Z :=
  cbd <- lua_check_session ;;
  session <- session_of cbd ;;
  if negb (session =? NULL)%N then
    data <- lua_check_event 2 ;;
    if negb (data =? NULL)%N then
      rspamd_session_remove_event session lua_event_fin data ;;;
      ret 0
    else ret 1
  else
    lua_pushnil ;;;
    ret 1.

(** [lua_session_check_session_pending] *)
Definition lua_session_check_session_pending : M Z :=
  cbd <- lua_check_session ;;
  session <- session_of cbd ;;
  (if negb (session =? NULL)%N then ret tt else lua_pushnil) ;;;
  ret 1.

End Bindings.

(** A helper that behaves as the bindings expect of
    [rspamd_lua_check_udata], to run them on concrete states. *)
Definition check_udata_by_class (l : lua_State) (pos : Z)
    (classname : string) : option udata :=
  match index2value l pos with
  | Some (LUserdata u) =>
      if decide (ud_class u = Some classname) then Some u else None
  | _ => None
  end.

(** What the bindings rely on for [rspamd_lua_check_udata]: it answers a
    block only where the stack holds this userdata block. *)
Definition check_udata_sound
    (check : lua_State → Z → string → option udata) : Prop :=
  ∀ l pos cls u,
    check l pos cls = Some u → index2value l pos = Some (LUserdata u).

(** A helper that does not look at the stack and answers a block in any
    case: with it the bindings run into the branch that finds a function
    at index 1, which no helper as above lets them reach. *)
Definition check_udata_any (l : lua_State) (pos : Z)
    (classname : string) : option udata :=
  Some (mk_udata (Some classname) (Some 10%N)).

(** A world as [lua_session_create] leaves it, with one live session that
    has no outstanding event and whose block is at address 10. *)
Definition sample_session_udata : lua_session_udata :=
  {| sud_L := 1%N; cbref_fin := 1; cbref_restore := 0; cbref_cleanup := 0;
     pool := 30%N; session := 20%N |}.

Definition world_with_stack (s : list lua_value) : world :=
  {| lua := {| stack := s;
               registry := {[ 1 := LFunction 7%N ]};
               next_ref := 2 |};
     lua_addr := 1%N;
     session_udata := {[ 10%N := sample_session_udata ]};
     event_udata := ∅;
     sessions := {[ 20%N := [] ]};
     finalized := [];
     brk := 100%N;
     log := [] |}.

(** The moment Lua calls a method of the session userdata with the given
    further arguments. *)
Definition sample_world (args : list lua_value) : world :=
  world_with_stack
    (LUserdata (mk_udata (Some "rspamd{session}") (Some 10%N)) :: args).

(** The values a C function hands back to its Lua caller: as many values
    from the top of the stack as the function's integer result says. *)
Definition returned_values (n : Z) (w : world) : list lua_value :=
  let s := stack (lua w) in
  drop (length s - Z.to_nat n) s.

End LuaSession.

(* ===================================================================== *)
(** * Part II b: further members of the cache item                        *)
(* ===================================================================== *)

Module SymcacheOps.
Import Symcache.

Section Ghost.

(** [SYMBOL_TYPE_GHOST] is a flag of [enum rspamd_symbol_type], declared
    in [rspamd_symcache.h] outside the sources. *)
Variable SYMBOL_TYPE_GHOST : Z.

(** [cache_item::is_ghost]: [flags & SYMBOL_TYPE_GHOST], read as a bool *)
Definition is_ghost (it : cache_item) : bool :=
  negb (Z.land (flags it) SYMBOL_TYPE_GHOST =? 0).

End Ghost.

End SymcacheOps.

(* ===================================================================== *)
(** * Part II c: the content type benchmark ([content_type_bench.c])      *)
(* ===================================================================== *)

Module ContentTypeBench.

Definition MODE_NORMAL : Z := 0.
Definition MODE_GMIME : Z := 1.
Definition MODE_COMPARE : Z := 2.

(** The characters ['-'], ['g'] and ['c']. *)
Definition char_minus : Ascii.ascii := Ascii.ascii_of_N 45.
Definition char_g : Ascii.ascii := Ascii.ascii_of_N 103.
Definition char_c : Ascii.ascii := Ascii.ascii_of_N 99.

(** The character at an index of a C string; the terminating NUL is read
    at its end. *)
Definition char_at (s : string) (i : nat) : Ascii.ascii :=
  default Ascii.zero (String.get i s).

(** The option parsing of [main]: the index of the first file argument
    and the mode. [argv] holds the program name first. *)
Definition select_mode (argv : list string) : Z * Z :=
  let argc := Z.of_nat (length argv) in
  if (2 <? argc)
     && bool_decide (char_at (default EmptyString (argv !! 1%nat)) 0 = char_minus)
  then
    (2,
     if bool_decide (char_at (default EmptyString (argv !! 1%nat)) 1 = char_g)
     then MODE_GMIME
     else if bool_decide (char_at (default EmptyString (argv !! 1%nat)) 1 = char_c)
     then MODE_COMPARE
     else MODE_NORMAL)
  else (1, MODE_NORMAL).

(** [g_ascii_isspace] of GLib, which reads the bit [G_ASCII_SPACE] of its
    table: set for tab (9), line feed (10), form feed (12), carriage
    return (13) and space (32), and not for the vertical tab (11) that
    the [isspace] of C accepts. *)
Definition g_ascii_isspace (c : Ascii.ascii) : bool :=
  match Ascii.N_of_ascii c with
  | 9%N | 10%N | 12%N | 13%N | 32%N => true
  | _ => false
  end.

(** The loop that drops trailing white space from the line buffer: only
    [buf->len] goes down, the bytes of [buf->str] stay.
    [while (buf->len > 0 && g_ascii_isspace (buf->str[buf->len - 1])) buf->len--] *)
Fixpoint strip_len (str : string) (len : nat) : nat :=
  match len with
  | O => O
  | S k => if g_ascii_isspace (char_at str k) then strip_len str k else len
  end.

(** What a reader of [(buf->str, buf->len)] sees, and what a reader of
    the C string [buf->str] sees. *)
Definition counted_view (str : string) (len : nat) : string :=
  String.substring 0 len str.

Fixpoint c_string (s : string) : string :=
  match s with
  | EmptyString => EmptyString
  | String c r =>
      if bool_decide (c = Ascii.zero) then EmptyString else String c (c_string r)
  end.

(** [struct rspamd_content_type], declared in [content_type.h] outside the
    sources, by the members the benchmark reads: three tokens and the
    attributes pointer, of which only being non-null is looked at. *)
Record rspamd_content_type := mk_content_type {
  ct_type : string;
  ct_subtype : string;
  ct_charset : string;
  ct_attrs : bool
}.

(** A [GMimeContentType] by what its getters answer: the media type, the
    media subtype, the charset parameter and whether there are
    parameters. *)
Record gmime_content_type := mk_gmime_content_type {
  media_type : option string;
  media_subtype : option string;
  charset_parameter : option string;
  has_params : bool
}.

(** [x ++] on a [gint], wrapping around in two's complement. *)
Definition gint_inc (v : Z) : Z := (v + 1 + 2 ^ 31) mod 2 ^ 32 - 2 ^ 31.

(** What the benchmark writes to the standard error stream, by message. *)
Inductive diag :=
| diag_cannot_open (fname : string)
| diag_type (rspamd gmime : string)
| diag_subtype (rspamd gmime : string)
| diag_charset (rspamd gmime : string)
| diag_cannot_parse (buf : string) (ct gct : bool)
| diag_cannot_read (fname : string).

(** [static gboolean verbose = 1], never assigned. *)
Definition verbose : bool := true.

(** A file as the channel reads it: the lines with their terminators,
    each with the two readings of the tick counter around its parsing,
    and whether reading ended on an error instead of the end of file. *)
Record file_content (time : Type) := mk_file_content {
  file_lines : list (string * (time * time));
  read_error : bool
}.
Arguments file_lines {time} f.
Arguments read_error {time} f.

(** The static counters. *)
Record totals (time : Type) := mk_totals {
  total_time : time;
  total_parsed : Z;
  total_valid : Z;
  total_type : Z;
  total_subtype : Z;
  total_charset : Z;
  total_attrs : Z
}.
Arguments mk_totals {time}.
Arguments total_time {time} t.
Arguments total_parsed {time} t.
Arguments total_valid {time} t.
Arguments total_type {time} t.
Arguments total_subtype {time} t.
Arguments total_charset {time} t.
Arguments total_attrs {time} t.

(** What [main] prints at the end. *)
Inductive report (time : Type) :=
| report_single (parsed : Z) (t : time) (valid type subtype charset attrs : Z)
| report_compare (parsed : Z) (t : time) (valid type subtype charset : Z).
Arguments report_single {time}.
Arguments report_compare {time}.

Section Bench.

(** The tick counter is a [gdouble]: time is kept abstract, with its zero,
    sum and difference. *)
Variable time : Type.
Variable time_zero : time.
Variable time_add time_sub : time → time → time.

(** The two parsers under measurement and the token comparison, all from
    outside the sources. *)
Variable rspamd_content_type_parse : string → option rspamd_content_type.
Variable g_mime_content_type_new_from_string : string → option gmime_content_type.
Variable rspamd_ftok_casecmp : string → string → Z.

(** The files of the machine, by name. *)
Variable file_system : string → option (file_content time).

Definition bench_state : Type := totals time * list diag.

Definition count_if (b : bool) (v : Z) : Z := if b then gint_inc v else v.

(** One token of the comparison mode: counted when both parsers have it
    and the tokens are equal without regard to case; reported when they
    differ. *)
Definition compare_token (mk : string → string → diag) (ours : string)
    (theirs : option string) (v : Z) (out : list diag) : Z * list diag :=
  match theirs with
  | Some t =>
      if negb (String.length ours =? 0)%nat then
        if rspamd_ftok_casecmp ours t =? 0 then (gint_inc v, out)
        else if verbose then (v, out ++ [mk ours t])
        else (v, out)
      else (v, out)
  | None => (v, out)
  end.

(** The body of the reading loop of [rspamd_process_file] for one line. *)
Definition process_line (mode : Z) (s : bench_state)
    (line : string * (time * time)) : bench_state :=
  let '(tot, out) := s in
  let '(str, (t1, t2)) := line in
  let len := strip_len str (String.length str) in
  let ct := rspamd_content_type_parse (counted_view str len) in
  let gct := g_mime_content_type_new_from_string (c_string str) in
  let time' := time_add (total_time tot) (time_sub t2 t1) in
  let parsed' := gint_inc (total_parsed tot) in
  if mode =? MODE_NORMAL then
    match ct with
    | Some c =>
        (mk_totals time' parsed'
           (gint_inc (total_valid tot))
           (count_if (negb (String.length (ct_type c) =? 0)%nat) (total_type tot))
           (count_if (negb (String.length (ct_subtype c) =? 0)%nat) (total_subtype tot))
           (count_if (negb (String.length (ct_charset c) =? 0)%nat) (total_charset tot))
           (count_if (ct_attrs c) (total_attrs tot)),
         out)
    | None =>
        (mk_totals time' parsed' (total_valid tot) (total_type tot)
           (total_subtype tot) (total_charset tot) (total_attrs tot), out)
    end
  else if mode =? MODE_GMIME then
    match gct with
    | Some g =>
        (mk_totals time' parsed'
           (gint_inc (total_valid tot))
           (count_if (bool_decide (is_Some (media_type g))) (total_type tot))
           (count_if (bool_decide (is_Some (media_subtype g))) (total_subtype tot))
           (count_if (bool_decide (is_Some (charset_parameter g))) (total_charset tot))
           (count_if (has_params g) (total_attrs tot)),
         out)
    | None =>
        (mk_totals time' parsed' (total_valid tot) (total_type tot)
           (total_subtype tot) (total_charset tot) (total_attrs tot), out)
    end
  else
    match gct, ct with
    | Some g, Some c =>
        let '(ty, out1) :=
          compare_token diag_type (ct_type c) (media_type g)
            (total_type tot) out in
        let '(sty, out2) :=
          compare_token diag_subtype (ct_subtype c) (media_subtype g)
            (total_subtype tot) out1 in
        let '(cs, out3) :=
          compare_token diag_charset (ct_charset c) (charset_parameter g)
            (total_charset tot) out2 in
        (mk_totals time' parsed' (gint_inc (total_valid tot)) ty sty cs
           (total_attrs tot), out3)
    | _, _ =>
        (mk_totals time' parsed' (total_valid tot) (total_type tot)
           (total_subtype tot) (total_charset tot) (total_attrs tot),
         if verbose then
           out ++ [diag_cannot_parse (counted_view str len)
                     (bool_decide (is_Some ct)) (bool_decide (is_Some gct))]
         else out)
    end.

(** [rspamd_process_file] *)
Definition rspamd_process_file (mode : Z) (s : bench_state) (fname : string)
    : bench_state :=
  match file_system fname with
  | None => (s.1, s.2 ++ [diag_cannot_open fname])
  | Some f =>
      let s' := foldl (process_line mode) s (file_lines f) in
      if read_error f then (s'.1, s'.2 ++ [diag_cannot_read fname]) else s'
  end.

(** [main]: the counters and the diagnostics at the end, the report
    printed and the exit status. *)
Definition bench_main (argv : list string)
    : bench_state * report time * Z :=
  let '(start, mode) := select_mode argv in
  let s :=
    foldl (rspamd_process_file mode)
      (mk_totals time_zero 0 0 0 0 0 0, [])
      (drop (Z.to_nat start) argv) in
  let tot := s.1 in
  (s,
   if negb (mode =? MODE_COMPARE) then
     report_single (total_parsed tot) (total_time tot) (total_valid tot)
       (total_type tot) (total_subtype tot) (total_charset tot)
       (total_attrs tot)
   else
     report_compare (total_parsed tot) (total_time tot) (total_valid tot)
       (total_type tot) (total_subtype tot) (total_charset tot),
   0).

(** The lines of the files [main] can open, over all its file arguments. *)
Definition lines_read (files : list string) : Z :=
  foldr (λ f acc,
           match file_system f with
           | Some c => Z.of_nat (length (file_lines c)) + acc
           | None => acc
           end) 0 files.

End Bench.

(** The counters are consistent: nothing is counted more often than a
    valid line, and no more valid lines than parsed ones. *)
Definition counters_consistent {time} (t : totals time) : Prop :=
  0 ≤ total_valid t ≤ total_parsed t
  ∧ 0 ≤ total_type t ≤ total_valid t
  ∧ 0 ≤ total_subtype t ≤ total_valid t
  ∧ 0 ≤ total_charset t ≤ total_valid t
  ∧ 0 ≤ total_attrs t ≤ total_valid t.

(** The counters between two lines: consistent, with the number of lines
    parsed so far, and with no attribute counted by the comparison. *)
Definition bench_inv {time} (mode : Z) (k : Z) (s : totals time * list diag)
    : Prop :=
  counters_consistent s.1
  ∧ total_parsed s.1 = k
  ∧ (mode ≠ MODE_NORMAL → mode ≠ MODE_GMIME → total_attrs s.1 = 0).

(** A small machine to run the benchmark on: one readable file of three
    lines, a parser that knows lines that start with a letter t, and a
    second parser that knows none. *)
Definition sample_files (fname : string) : option (file_content Z) :=
  if bool_decide (fname = "headers.txt")
  then Some {| file_lines := [("text/plain; charset=utf-8  ", (10, 17));
                              ("garbage", (20, 21));
                              ("text/html", (30, 32))];
               read_error := false |}
  else None.

Definition sample_parse (s : string) : option rspamd_content_type :=
  if bool_decide (char_at s 0 = Ascii.ascii_of_N 116)
  then Some {| ct_type := "text"; ct_subtype := "plain"; ct_charset := "";
               ct_attrs := false |}
  else None.

Definition sample_gmime (s : string) : option gmime_content_type := None.

Definition sample_casecmp (a b : string) : Z :=
  if bool_decide (a = b) then 0 else 1.

End ContentTypeBench.

(* ===================================================================== *)
(** * Part II d: creation, deletion and callbacks of a Lua session        *)
(* ===================================================================== *)

Module LuaSessionLife.
Import LuaSession.

Definition set_session_udata (w : world)
    (h : gmap pointer lua_session_udata) (b : pointer) : world :=
  {| lua := lua w; lua_addr := lua_addr w; session_udata := h;
     event_udata := event_udata w; sessions := sessions w;
     finalized := finalized w; brk := b; log := log w |}.

Definition set_sessions_brk (w : world)
    (s : gmap pointer rspamd_async_session) (b : pointer) : world :=
  {| lua := lua w; lua_addr := lua_addr w; session_udata := session_udata w;
     event_udata := event_udata w; sessions := s;
     finalized := finalized w; brk := b; log := log w |}.

(** ** More of the Lua C API *)

(** [lua_pop (L, n)] *)
Definition lua_pop (n : nat) : M unit :=
  w <- get ;;
  if (n <=? length (stack (lua w)))%nat then
    modify (λ w, set_stack w (take (length (stack (lua w)) - n) (stack (lua w))))
  else fault.

(** [lua_rawgeti (L, LUA_REGISTRYINDEX, n)]: a key without value reads as
    nil. *)
Definition lua_rawgeti (n : Z) : M unit :=
  w <- get ;; lua_push (default LNil (registry (lua w) !! n)).

(** [lua_toboolean]: false for nil, for the boolean false and for an index
    without value. *)
Definition truthy (v : lua_value) : bool :=
  match v with
  | LNil | LBoolean false => false
  | _ => true
  end.

Definition lua_toboolean (idx : Z) : M bool :=
  w <- get ;;
  ret (match index2value (lua w) idx with
       | Some v => truthy v
       | None => false
       end).

(** [lua_rawseti] on a table: storing nil takes the key out. *)
Definition rawset (k : Z) (v : lua_value) (t : gmap Z lua_value)
    : gmap Z lua_value :=
  match v with
  | LNil => delete k t
  | _ => <[k := v]> t
  end.

(** [luaL_unref (L, LUA_REGISTRYINDEX, ref)] of Lua 5.1 and LuaJIT: the
    released key goes on the free list the table keeps under the key
    [FREELIST_REF],
    [t[ref] = t[FREELIST_REF]; t[FREELIST_REF] = ref],
    so that the slot holds the former head of the list, nil or a number,
    and no longer the value referenced. A negative reference
    ([LUA_NOREF], [LUA_REFNIL]) is left alone. *)
Definition FREELIST_REF : Z := 0.

Definition luaL_unref (ref : Z) : M unit :=
  if 0 <=? ref then
    modify (λ w,
      let t := registry (lua w) in
      set_lua w {| stack := stack (lua w);
                   registry :=
                     <[FREELIST_REF := LNumber ref]>
                       (rawset ref (default LNil (t !! FREELIST_REF)) t);
                   next_ref := next_ref (lua w) |})
  else ret tt.

(** [msg_info]: one more line in the log. *)
Definition msg_info (line : string) : M unit :=
  modify (λ w, set_log w (log w ++ [line])).

(** What calling a Lua value without arguments comes to: it returns
    values or raises an error value, and leaves a world behind. *)
Inductive call_outcome :=
| call_returns (results : list lua_value) (w : world)
| call_raises (err : lua_value) (w : world).

(** The results of a call, cut or filled up with nil to the number the
    caller asked for. *)
Definition adjust_results (n : nat) (rs : list lua_value) : list lua_value :=
  take n rs ++ replicate (n - length rs) LNil.

Definition LUA_ERRRUN : Z := 2.

(** [rspamd_mempool_alloc0] for a [struct lua_session_udata]: a block the
    pool has not handed out before, filled with zero bytes. *)
Definition rspamd_mempool_alloc0_session_udata (pool : pointer) : M pointer :=
  w <- get ;;
  let p := (brk w + 1)%N in
  modify (λ w, set_session_udata w
                 (<[p := mk_lua_session_udata NULL 0 0 0 NULL NULL]>
                    (session_udata w)) p) ;;;
  ret p.

Definition assign_session_udata (p : pointer)
    (f : lua_session_udata → lua_session_udata) : M unit :=
  w <- get ;;
  match session_udata w !! p with
  | Some c =>
      modify (λ w, set_session_udata w (<[p := f c]> (session_udata w)) (brk w))
  | None => fault
  end.

(** Modelled from the spec: [rspamd_session_create] belongs to the session
    code, which is not among the sources. A session is the list of its
    outstanding events, those registered and not yet removed, so that a
    session just created has none. The callbacks it is given are always
    the three of this file and the user data is the block of the
    bindings. *)
Definition rspamd_session_create (mempool : pointer) (user_data : pointer)
    : M pointer :=
  w <- get ;;
  let s := (brk w + 1)%N in
  modify (λ w, set_sessions_brk w (<[s := []]> (sessions w)) s) ;;;
  ret s.

Definition cbdata_of (ud : pointer) : M lua_session_udata :=
  w <- get ;;
  match session_udata w !! ud with
  | Some c => ret c
  | None => fault
  end.

Definition event_cbdata_of (ud : pointer) : M lua_event_udata :=
  w <- get ;;
  match event_udata w !! ud with
  | Some e => ret e
  | None => fault
  end.

Section Life.

(** The helpers of the host for userdata, as before, and for memory pools:
    [rspamd_lua_check_mempool (L, pos)] answers the pool behind the
    userdata at [pos], or raises. *)
Variable rspamd_lua_check_udata : lua_State → Z → string → option udata.
Variable rspamd_lua_check_mempool : Z → M pointer.

(** [rspamd_session_destroy], from the session code outside the sources. *)
Variable rspamd_session_destroy : pointer → M unit.

(** Calling a Lua value, and the text [lua_tostring] gives the logger for
    an error value. *)
Variable lua_call : lua_value → world → call_outcome.
Variable error_text : lua_value → string.

(** [lua_pcall (L, 0, nresults, 0)]: the value on top is called in a frame
    of its own; afterwards the stack holds, in its place, the results
    adjusted to [nresults] or the error value. *)
Definition lua_pcall (nresults : nat) : M Z :=
  w <- get ;;
  match reverse (stack (lua w)) with
  | [] => fault
  | f :: below =>
      match lua_call f (set_stack w (reverse below)) with
      | call_returns rs w' =>
          modify (λ _, set_stack w' (reverse below ++ adjust_results nresults rs)) ;;;
          ret 0
      | call_raises e w' =>
          modify (λ _, set_stack w' (reverse below ++ [e])) ;;;
          ret LUA_ERRRUN
      end
  end.

(** [lua_tostring (L, -1)] as the logger prints it *)
Definition top_text : M string :=
  w <- get ;; ret (error_text (default LNil (index2value (lua w) (-1)))).

(** [lua_session_finalizer] *)
Definition lua_session_finalizer (ud : pointer) : M bool :=
  cbdata <- cbdata_of ud ;;
  lua_rawgeti (cbref_fin cbdata) ;;;
  status <- lua_pcall 1 ;;
  res <- (if negb (status =? 0) then
            txt <- top_text ;;
            msg_info ("call to session finalizer failed: " +:+ txt) ;;;
            lua_pop 1 ;;;
            ret false
          else
            b <- lua_toboolean (-1) ;;
            lua_pop 1 ;;;
            ret b) ;;
  cbdata <- cbdata_of ud ;;
  luaL_unref (cbref_fin cbdata) ;;;
  ret res.

(** [lua_session_restore] *)
Definition lua_session_restore (ud : pointer) : M unit :=
  cbdata <- cbdata_of ud ;;
  if negb (cbref_restore cbdata =? 0) then
    lua_rawgeti (cbref_restore cbdata) ;;;
    status <- lua_pcall 0 ;;
    (if negb (status =? 0) then
       txt <- top_text ;;
       msg_info ("call to session restorer failed: " +:+ txt) ;;;
       lua_pop 1
     else ret tt) ;;;
    cbdata <- cbdata_of ud ;;
    luaL_unref (cbref_restore cbdata)
  else ret tt.

(** [lua_session_cleanup] *)
Definition lua_session_cleanup (ud : pointer) : M unit :=
  cbdata <- cbdata_of ud ;;
  if negb (cbref_cleanup cbdata =? 0) then
    lua_rawgeti (cbref_cleanup cbdata) ;;;
    status <- lua_pcall 0 ;;
    (if negb (status =? 0) then
       txt <- top_text ;;
       msg_info ("call to session cleanup failed: " +:+ txt) ;;;
       lua_pop 1
     else ret tt) ;;;
    cbdata <- cbdata_of ud ;;
    luaL_unref (cbref_cleanup cbdata)
  else ret tt.

(** [lua_event_fin], the body of the finalizer tag of the same name *)
Definition lua_event_fin_body (ud : pointer) : M unit :=
  cbdata <- event_cbdata_of ud ;;
  if negb (cbref cbdata =? 0) then
    lua_rawgeti (cbref cbdata) ;;;
    status <- lua_pcall 0 ;;
    (if negb (status =? 0) then
       txt <- top_text ;;
       msg_info ("call to event finalizer failed: " +:+ txt) ;;;
       lua_pop 1
     else ret tt) ;;;
    cbdata <- event_cbdata_of ud ;;
    luaL_unref (cbref cbdata)
  else ret tt.

(** [lua_session_create] *)
Definition lua_session_create : M Z :=
  n <- lua_gettop ;;
  if (n <? 2) || (4 <? n) then
    msg_err "invalid arguments number to rspamd_session.create" ;;;
    lua_pushnil ;;;
    ret 1
  else
    mempool <- rspamd_lua_check_mempool 1 ;;
    if (mempool =? NULL)%N then
      msg_err "invalid mempool argument to rspamd_session.create" ;;;
      lua_pushnil ;;;
      ret 1
    else
      isf <- lua_isfunction 2 ;;
      if negb isf then
        msg_err "invalid finalizer argument to rspamd_session.create" ;;;
        lua_pushnil ;;;
        ret 1
      else
        cbdata <- rspamd_mempool_alloc0_session_udata mempool ;;
        w <- get ;;
        assign_session_udata cbdata
          (λ c, mk_lua_session_udata (lua_addr w) (cbref_fin c)
                  (cbref_restore c) (cbref_cleanup c) (pool c) (session c)) ;;;
        assign_session_udata cbdata
          (λ c, mk_lua_session_udata (sud_L c) (cbref_fin c)
                  (cbref_restore c) (cbref_cleanup c) mempool (session c)) ;;;
        lua_pushvalue 2 ;;;
        r <- luaL_ref ;;
        assign_session_udata cbdata
          (λ c, mk_lua_session_udata (sud_L c) r
                  (cbref_restore c) (cbref_cleanup c) (pool c) (session c)) ;;;
        n <- lua_gettop ;;
        (if 2 <? n then
           (* Also add restore callback *)
           isf <- lua_isfunction 3 ;;
           if isf : bool then
             lua_pushvalue 3 ;;;
             r <- luaL_ref ;;
             assign_session_udata cbdata
               (λ c, mk_lua_session_udata (sud_L c) (cbref_fin c)
                       r (cbref_cleanup c) (pool c) (session c))
           else ret tt
         else ret tt) ;;;
        n <- lua_gettop ;;
        (if 3 <? n then
           (* Also add cleanup callback *)
           isf <- lua_isfunction 4 ;;
           if isf : bool then
             lua_pushvalue 4 ;;;
             r <- luaL_ref ;;
             assign_session_udata cbdata
               (λ c, mk_lua_session_udata (sud_L c) (cbref_fin c)
                       (cbref_restore c) r (pool c) (session c))
           else ret tt
         else ret tt) ;;;
        session <- rspamd_session_create mempool cbdata ;;
        assign_session_udata cbdata
          (λ c, mk_lua_session_udata (sud_L c) (cbref_fin c)
                  (cbref_restore c) (cbref_cleanup c) (pool c) session) ;;;
        lua_newuserdata ;;;
        rspamd_lua_setclass "rspamd{session}" (-1) ;;;
        store_udata cbdata ;;;
        ret 1.

(** [lua_session_delete] *)
Definition lua_session_delete : M Z :=
  cbd <- lua_check_session rspamd_lua_check_udata ;;
  session <- session_of cbd ;;
  if negb (session =? NULL)%N then
    rspamd_session_destroy session ;;;
    ret 0
  else
    lua_pushnil ;;;
    ret 1.

End Life.

(** Whether the stack holds a function at an index. *)
Definition function_at (l : lua_State) (idx : Z) : bool :=
  match index2value l idx with
  | Some (LFunction _) => true
  | _ => false
  end.

(** A callee keeps its hands off a block of the bindings. *)
Definition keeps_session_udata (lua_call : lua_value → world → call_outcome)
    (ud : pointer) : Prop :=
  ∀ v w0,
    match lua_call v w0 with
    | call_returns _ w1 | call_raises _ w1 =>
        session_udata w1 !! ud = session_udata w0 !! ud
    end.

Definition keeps_event_udata (lua_call : lua_value → world → call_outcome)
    (ud : pointer) : Prop :=
  ∀ v w0,
    match lua_call v w0 with
    | call_returns _ w1 | call_raises _ w1 =>
        event_udata w1 !! ud = event_udata w0 !! ud
    end.

(** What a table has become once the reference [ref] was released from
    [before]: the free list starts at [ref], reading the slot gives what
    reading the head of the free list gave, and the other keys are as they
    were. *)
Definition put_on_free_list (ref : Z) (before after : gmap Z lua_value) : Prop :=
  after !! FREELIST_REF = Some (LNumber ref)
  ∧ (ref ≠ FREELIST_REF →
     default LNil (after !! ref) = default LNil (before !! FREELIST_REF))
  ∧ (∀ k, k ≠ FREELIST_REF → k ≠ ref → after !! k = before !! k).

(** The head of the free list is nil or a number, as [luaL_ref] and
    [luaL_unref] leave it. *)
Definition free_list_head_ok (w : world) : Prop :=
  match registry (lua w) !! FREELIST_REF with
  | None | Some LNil | Some (LNumber _) => True
  | Some _ => False
  end.

(** Sample helpers to run the functions on concrete worlds: a pool
    helper that answers pool 30 without looking, a destruction that drops
    the session, a callee that answers true for functions and fails for
    anything else, and an error text. *)
Definition sample_check_mempool (pos : Z) : M pointer := ret 30%N.

Definition sample_destroy (s : pointer) : M unit :=
  modify (λ w, set_sessions w (delete s (sessions w)) (finalized w)).

Definition sample_call (v : lua_value) (w : world) : call_outcome :=
  match v with
  | LFunction _ => call_returns [LBoolean true] w
  | _ => call_raises (LString "attempt to call a nil value") w
  end.

Definition sample_error_text (v : lua_value) : string :=
  match v with LString s => s | _ => "(NULL)" end.

(** A world in which a session and one of its events hold callback
    references: the session finalizer under 1, the restorer and the event
    finalizer under 2, and no cleanup. *)
Definition callbacks_world : world :=
  {| lua := {| stack := [LNumber 5];
               registry := {[ 1 := LFunction 7%N; 2 := LFunction 8%N ]};
               next_ref := 3 |};
     lua_addr := 1%N;
     session_udata := {[ 10%N := mk_lua_session_udata 1%N 1 2 0 30%N 20%N ]};
     event_udata := {[ 101%N := mk_lua_event_udata 1%N 2 20%N ]};
     sessions := {[ 20%N := [] ]};
     finalized := [];
     brk := 101%N;
     log := [] |}.

(** The same world after the restorer of the session has run: its
    reference 2 heads the free list. *)
Definition restored_world : world :=
  match lua_session_restore sample_call sample_error_text 10%N callbacks_world with
  | Ok _ w => w
  | _ => callbacks_world
  end.

End LuaSessionLife.

(* ===================================================================== *)
(** * Part II e: the conditions vector, the Lua state and the declared     *)
(**   members of the item                                                  *)
(* ===================================================================== *)

Module SymcacheLua.
Import Symcache LuaSession LuaSessionLife.

(** ** The conditions vector and the callbacks behind it *)

(** [item_condition::~item_condition]:
    [if (cb != -1 && L != nullptr) luaL_unref (L, LUA_REGISTRYINDEX, cb)].
    The world holds one Lua state, at [lua_addr]; a release in another
    Lua state is not followed. *)
Definition item_condition_destroy (c : item_condition) : M unit :=
  if negb (cond_cb c =? -1) && negb (cond_L c =? nullptr)%N then
    w <- get ;;
    if (cond_L c =? lua_addr w)%N then luaL_unref (cond_cb c) else ret tt
  else ret tt.

(** The elements of a storage the vector gives up, destroyed first to
    last. *)
Fixpoint destroy_conditions (cs : list item_condition) : M unit :=
  match cs with
  | [] => ret tt
  | c :: cs' => item_condition_destroy c ;;; destroy_conditions cs'
  end.

Section Vector.

(** The capacity a full vector of capacity [c] moves to. The choice is
    the library's; the capacity itself is no member the sources name and
    is carried beside the item. *)
Variable grow : nat → nat.

(** [std::vector<item_condition>::emplace_back (L, cbref)] on a vector
    with the elements [cs] and the capacity [cap]. With room left the new
    element is constructed behind the others. A full vector takes a new
    storage: [item_condition] declares a destructor, so it has no move
    constructor and its elements are copied there, member by member; the
    new element is constructed behind them and the elements of the old
    storage are destroyed. *)
Definition emplace_back (L : Symcache.pointer) (cbref : Z)
    (cs : list item_condition) (cap : nat) : M (list item_condition * nat) :=
  if (length cs <? cap)%nat then
    ret (cs ++ [mk_item_condition L cbref], cap)
  else
    destroy_conditions cs ;;;
    ret (cs ++ [mk_item_condition L cbref], grow cap).

(** [normal_item::add_condition]: [conditions.emplace_back (L, cbref)] *)
Definition normal_item_add_condition (L : Symcache.pointer) (cbref : Z)
    (n : normal_item) (cap : nat) : M (normal_item * nat) :=
  r <- emplace_back L cbref (conditions n) cap ;;
  ret ({| func := func n; user_data := user_data n; conditions := r.1 |}, r.2).

(** [cache_item::add_condition]: the returned flag, the item and the
    capacity of its conditions afterwards. *)
Definition add_condition (L : Symcache.pointer) (cbref : Z) (it : cache_item)
    (cap : nat) : M (bool * cache_item * nat) :=
  if negb (is_virtual it) then
    match specific it with
    | Normal normal =>
        r <- normal_item_add_condition L cbref normal cap ;;
        ret (true, set_specific it (Normal r.1), r.2)
    | Virtual _ => ret (false, it, cap)  (* std::get would throw; excluded by the test *)
    end
  else ret (false, it, cap).

(** Registering several conditions one after the other, with the flags
    the calls of [add_condition] returned. *)
Fixpoint add_conditions (regs : list (Symcache.pointer * Z)) (it : cache_item)
    (cap : nat) : M (list bool * cache_item * nat) :=
  match regs with
  | [] => ret ([], it, cap)
  | (L, cbref) :: regs' =>
      r <- add_condition L cbref it cap ;;
      rs <- add_conditions regs' r.1.2 r.2 ;;
      ret (r.1.1 :: rs.1.1, rs.1.2, rs.2)
  end.

(** The member functions of [cache_item] that change the item and have a
    body in the sources. *)
Inductive member_call :=
| m_add_condition (L : Symcache.pointer) (cbref : Z)
| m_inc_frequency.

Definition apply_member (s : cache_item * nat) (m : member_call)
    : M (cache_item * nat) :=
  match m with
  | m_add_condition L cbref =>
      r <- add_condition L cbref s.1 s.2 ;; ret (r.1.2, r.2)
  | m_inc_frequency => ret (inc_frequency s.1, s.2)
  end.

Fixpoint run_members (ms : list member_call) (s : cache_item * nat)
    : M (cache_item * nat) :=
  match ms with
  | [] => ret s
  | m :: ms' => s' <- apply_member s m ;; run_members ms' s'
  end.

End Vector.

(** The conditions the calls of a sequence register and the number of
    its increments. *)
Definition registrations (ms : list member_call) : list item_condition :=
  omap (λ m, match m with
             | m_add_condition L cbref => Some (mk_item_condition L cbref)
             | m_inc_frequency => None
             end) ms.

Definition is_increment (m : member_call) : bool :=
  match m with m_inc_frequency => true | m_add_condition _ _ => false end.

Definition increments (ms : list member_call) : Z :=
  Z.of_nat (length (filter (λ m, is_increment m = true) ms)).

(** Two items agree on every member but the statistics block and the
    specific data. *)
Definition same_members (a b : cache_item) : Prop :=
  cd a = cd b ∧ id a = id b ∧ last_count a = last_count b
  ∧ symbol a = symbol b ∧ type a = type b ∧ flags a = flags b
  ∧ enabled a = enabled b ∧ priority a = priority b ∧ order a = order b
  ∧ frequency_peaks a = frequency_peaks b
  ∧ allowed_ids a = allowed_ids b ∧ exec_only_ids a = exec_only_ids b
  ∧ forbidden_ids a = forbidden_ids b
  ∧ deps a = deps b ∧ rdeps a = rdeps b.

(** The registry holds no function under a key. *)
Definition no_function (w : world) (k : Z) : Prop :=
  ∀ f, registry (lua w) !! k ≠ Some (LFunction f).

(** The conditions whose destructor releases a reference in the Lua state
    of the world. *)
Definition releasable (w : world) (c : item_condition) : Prop :=
  cond_L c = lua_addr w ∧ cond_L c ≠ nullptr ∧ 0 ≤ cond_cb c.

(** The growth of libstdc++ and libc++: from no storage to one element,
    then twice the capacity. *)
Definition double_capacity (c : nat) : nat := Nat.max 1 (2 * c).

(** ** The members the sources only declare *)

Definition set_deps (it : cache_item) (ds : list cache_dependency) : cache_item :=
  {| st := st it; cd := cd it; id := id it; last_count := last_count it;
     symbol := symbol it; type := type it; flags := flags it;
     enabled := enabled it; priority := priority it; order := order it;
     frequency_peaks := frequency_peaks it; specific := specific it;
     allowed_ids := allowed_ids it; exec_only_ids := exec_only_ids it;
     forbidden_ids := forbidden_ids it; deps := ds; rdeps := rdeps it |}.

Definition set_rdeps (it : cache_item) (ds : list cache_dependency) : cache_item :=
  {| st := st it; cd := cd it; id := id it; last_count := last_count it;
     symbol := symbol it; type := type it; flags := flags it;
     enabled := enabled it; priority := priority it; order := order it;
     frequency_peaks := frequency_peaks it; specific := specific it;
     allowed_ids := allowed_ids it; exec_only_ids := exec_only_ids it;
     forbidden_ids := forbidden_ids it; deps := deps it; rdeps := ds |}.

Definition set_counters (it : cache_item) (s : rspamd_symcache_item_stat)
    (count peaks : Z) : cache_item :=
  {| st := s; cd := cd it; id := id it; last_count := count;
     symbol := symbol it; type := type it; flags := flags it;
     enabled := enabled it; priority := priority it; order := order it;
     frequency_peaks := peaks; specific := specific it;
     allowed_ids := allowed_ids it; exec_only_ids := exec_only_ids it;
     forbidden_ids := forbidden_ids it; deps := deps it; rdeps := rdeps it |}.

(** Modelled from the spec: [virtual_item::resolve_parent] and
    [cache_item::resolve_parent] are declared in the sources and defined
    outside them. The spec: resolve_parent (registry) answers true if
    resolved and is for virtual items only; binding a virtual item looks
    up its parent_id and, if the parent is there, stores a non-owning
    reference to it. *)
Definition virtual_item_resolve_parent (cache : symcache) (v : virtual_item)
    : bool * virtual_item :=
  match item_by_id cache (parent_id v) with
  | Some _ => (true, {| parent_id := parent_id v; parent := Some (parent_id v) |})
  | None => (false, v)
  end.

Definition resolve_parent (cache : symcache) (it : cache_item)
    : bool * cache_item :=
  match specific it with
  | Virtual v =>
      let r := virtual_item_resolve_parent cache v in
      (r.1, set_specific it (Virtual r.2))
  | Normal _ => (false, it)
  end.

Section Declared.

Variable grow : nat → nat.

(** The C type [double] of the times [update_counters_check_peak] is
    given; its arithmetic is not followed. *)
Variable double : Type.

(** Modelled from the spec: [cache_item::process_deps] is declared in the
    sources and defined outside them. The spec: the textual dependencies
    of an item are resolved, each pending edge by looking up its target
    by name and going to the parent of a virtual target, and the reverse
    edge is recorded at the target. The lookup and the rewriting of one
    edge are left open ([resolve_edge]); the call replaces the edges of
    the item by the resolved ones, and the target of an edge gets the
    reverse edge at the end of its own. *)
Variable resolve_edge : symcache → cache_item → cache_dependency → cache_dependency.

Definition process_deps (cache : symcache) (it : cache_item) : cache_item :=
  set_deps it (map (resolve_edge cache it) (deps it)).

Definition record_reverse_edge (d : cache_dependency) (it : cache_item)
    : cache_item :=
  set_rdeps it (rdeps it ++ [d]).

(** Modelled from the spec: [cache_item::update_counters_check_peak] is
    declared in the sources and defined outside them. The spec: a
    periodic tick recomputes the smoothed frequency of the item from its
    counters and answers whether its rate crossed the peak threshold. The
    arithmetic is left open ([recompute]: the statistics block, the last
    count and the number of peaks afterwards, and the answer); the call
    stores what it computed in the statistics block, in [last_count] and
    in [frequency_peaks]. *)
Variable recompute :
  cache_item → double → double → rspamd_symcache_item_stat * Z * Z * bool.

Definition update_counters_check_peak (cur_time last_resort : double)
    (it : cache_item) : bool * cache_item :=
  let r := recompute it cur_time last_resort in
  (r.2, set_counters it r.1.1.1 r.1.1.2 r.1.2).

(** The calls that reach an item through its interface: the two members
    with a body, the three declared ones, and the reverse edge that
    [process_deps] of a dependent item records here. *)
Inductive interface_call :=
| i_member (m : member_call)
| i_resolve_parent (cache : symcache)
| i_process_deps (cache : symcache)
| i_reverse_edge (d : cache_dependency)
| i_update_counters_check_peak (cur_time last_resort : double).

Definition apply_interface (s : cache_item * nat) (c : interface_call)
    : M (cache_item * nat) :=
  match c with
  | i_member m => apply_member grow s m
  | i_resolve_parent cache => ret ((resolve_parent cache s.1).2, s.2)
  | i_process_deps cache => ret (process_deps cache s.1, s.2)
  | i_reverse_edge d => ret (record_reverse_edge d s.1, s.2)
  | i_update_counters_check_peak cur_time last_resort =>
      ret ((update_counters_check_peak cur_time last_resort s.1).2, s.2)
  end.

Fixpoint run_interface (cs : list interface_call) (s : cache_item * nat)
    : M (cache_item * nat) :=
  match cs with
  | [] => ret s
  | c :: cs' => s' <- apply_interface s c ;; run_interface cs' s'
  end.

End Declared.

(** A world whose Lua state, at address 1, holds two callbacks under the
    references 5 and 9 and an empty free list. *)
Definition conditions_world : world :=
  {| lua := {| stack := [];
               registry := {[ 5 := LFunction 50%N; 9 := LFunction 90%N ]};
               next_ref := 10 |};
     lua_addr := 1%N;
     session_udata := ∅;
     event_udata := ∅;
     sessions := ∅;
     finalized := [];
     brk := 0%N;
     log := [] |}.

End SymcacheLua.

(* ===================================================================== *)
(** * Part III: properties of the cache item                              *)
(* ===================================================================== *)

Import Symcache.

(** ** The variant of an item *)

Lemma is_virtual_set_st it s : is_virtual (set_st it s) = is_virtual it.
Proof. reflexivity. Qed.

Lemma add_condition_normal L cbref it n :
  specific it = Normal n →
  add_condition L cbref it
  = (true, set_specific it (Normal (normal_item_add_condition L cbref n))).
Proof. intros Hn. unfold add_condition, is_virtual. by rewrite Hn. Qed.

Lemma add_condition_virtual L cbref it v :
  specific it = Virtual v → add_condition L cbref it = (false, it).
Proof. intros Hv. unfold add_condition, is_virtual. by rewrite Hv. Qed.

Lemma call_normal it n : specific it = Normal n → call it = Some it.
Proof.
  intros Hn. unfold call. rewrite Hn. unfold normal_item_call.
  f_equal. destruct it; simpl in *. by subst.
Qed.

Lemma apply_op_keeps_variant it o :
  is_virtual (apply_op it o) = is_virtual it.
Proof.
  destruct o as [L cbref| |]; simpl.
  - destruct (specific it) as [n|v] eqn:Hs.
    + rewrite (add_condition_normal L cbref it n Hs). simpl.
      unfold is_virtual at 2. by rewrite Hs.
    + by rewrite (add_condition_virtual L cbref it v Hs).
  - apply is_virtual_set_st.
  - destruct (specific it) as [n|v] eqn:Hs.
    + by rewrite (call_normal it n Hs).
    + unfold call. by rewrite Hs.
Qed.

(** ** The counters *)

Lemma g_atomic_int_inc_small v :
  0 ≤ v < 2 ^ 32 - 1 → g_atomic_int_inc v = v + 1.
Proof. intros Hv. unfold g_atomic_int_inc. apply Z.mod_small. lia. Qed.

Lemma g_atomic_int_inc_wraps : g_atomic_int_inc (2 ^ 32 - 1) = 0.
Proof. reflexivity. Qed.

(** C3, as the spec states it, fails on a fresh item: after
    [inc_frequency] the frequency statistic is still 0 and it is the hits
    counter, which the claim wants unchanged, that went from 0 to 1. *)
Lemma inc_frequency_leaves_frequency :
  let it := create_with_function 0%N 0 "SYM" 0 1%N 0%N FILTER 0 in
  frequency (st (inc_frequency it)) = 0
  ∧ hits (st it) = 0
  ∧ hits (st (inc_frequency it)) = 1
  ∧ ¬ (frequency (st (inc_frequency it)) = frequency (st it) + 1
       ∧ hits (st (inc_frequency it)) = hits (st it)).
Proof. simpl. split_and!; try reflexivity. intros [H _]. discriminate H. Qed.

(** C3, amended. [inc_frequency] is one atomic increment of the hits
    counter: hits goes up by one, modulo 2^32, and frequency, misses,
    skips, total_time and peaks as well as every other member of the item
    keep their values. *)
Theorem inc_frequency_increments_hits :
  ∀ it : cache_item,
    hits (st (inc_frequency it)) = (hits (st it) + 1) mod 2 ^ 32
    ∧ frequency (st (inc_frequency it)) = frequency (st it)
    ∧ misses (st (inc_frequency it)) = misses (st it)
    ∧ skips (st (inc_frequency it)) = skips (st it)
    ∧ total_time (st (inc_frequency it)) = total_time (st it)
    ∧ peaks (st (inc_frequency it)) = peaks (st it)
    ∧ inc_frequency it
      = set_st it
          {| hits := (hits (st it) + 1) mod 2 ^ 32;
             misses := misses (st it); skips := skips (st it);
             total_time := total_time (st it);
             frequency := frequency (st it); peaks := peaks (st it) |}.
Proof. intros it. by split_and!. Qed.

(** ** Creation *)

(** C10. A fresh item of either factory has empty [allowed_ids],
    [exec_only_ids] and [forbidden_ids], is enabled and has order 0,
    last_count 0 and frequency_peaks 0. *)
Theorem fresh_item_defaults :
  ∀ c : item_creation,
    allowed_ids (create c) = []
    ∧ exec_only_ids (create c) = []
    ∧ forbidden_ids (create c) = []
    ∧ id_list_empty (allowed_ids (create c)) = true
    ∧ id_list_empty (exec_only_ids (create c)) = true
    ∧ id_list_empty (forbidden_ids (create c)) = true
    ∧ enabled (create c) = true
    ∧ order (create c) = 0
    ∧ last_count (create c) = 0
    ∧ frequency_peaks (create c) = 0.
Proof. intros []; by split_and!. Qed.

(** C5, as the spec states it, fails: in a cache without any item the
    parent id 7 references nothing, and [create_with_virtual] still
    produces an enabled virtual item that carries this parent id. *)
Lemma create_with_virtual_missing_parent :
  let cache : symcache := [] in
  let it := create_with_virtual 0%N 1 "ALIAS" 7 VIRTUAL 0 in
  item_by_id cache 7 = None
  ∧ is_virtual it = true
  ∧ enabled it = true
  ∧ specific it = Virtual {| parent_id := 7; parent := None |}
  ∧ ¬ (∀ (reg : symcache) pool i name par ty fl,
         is_virtual (create_with_virtual pool i name par ty fl) = true →
         is_Some (item_by_id reg par)).
Proof.
  split_and!; try done.
  intros H. destruct (H [] 0%N 1 "ALIAS" 7 VIRTUAL 0 eq_refl) as [x Hx].
  discriminate Hx.
Qed.

(** C5, amended. [create_with_virtual] takes no cache and looks up no
    parent: for every parent id, whether or not it references an item of
    the cache, it produces a virtual item with this id and name that stores
    the parent id and an empty parent pointer; no error is reported at
    creation. *)
Theorem create_with_virtual_total :
  ∀ (cache : symcache) pool i name par ty fl,
    let it := create_with_virtual pool i name par ty fl in
    is_virtual it = true
    ∧ specific it = Virtual {| parent_id := par; parent := None |}
    ∧ id it = i ∧ symbol it = name ∧ type it = ty ∧ flags it = fl
    ∧ enabled it = true.
Proof. intros. by split_and!. Qed.

(** ** Conditions *)

(** C4, as the spec states it, fails: an item whose only condition answers
    skip is the same item after [call], its skips counter still 0; [call]
    looks at no condition and records nothing. *)
Lemma call_records_no_skip :
  let it := (add_condition 1%N 5 (create_with_function 0%N 0 "SYM" 0 1%N 0%N FILTER 0)).2 in
  let answer := λ _ : item_condition, cond_skip in
  is_virtual it = false
  ∧ specific it = Normal {| func := 1%N; user_data := 0%N;
                            conditions := [mk_item_condition 1%N 5] |}
  ∧ first_refusal answer [mk_item_condition 1%N 5] = Some cond_skip
  ∧ call it = Some it
  ∧ skips (st it) = 0
  ∧ ¬ (∃ it', call it = Some it' ∧ skips (st it') = skips (st it) + 1).
Proof.
  split_and!; try reflexivity.
  intros (it' & Hcall & Hskips). injection Hcall as <-. discriminate Hskips.
Qed.

(** ** Counters along a history *)

Lemma evaluations_snoc evs e : evaluations (evs ++ [e]) = evaluations evs + 1.
Proof. unfold evaluations. rewrite length_app. simpl. lia. Qed.

Lemma hits_recorded_snoc evs e :
  hits_recorded (evs ++ [e])
  = hits_recorded evs + (if is_hit e then 1 else 0).
Proof.
  unfold hits_recorded. rewrite filter_app, length_app.
  destruct e as [[] t]; simpl; lia.
Qed.

Lemma hits_recorded_nonneg evs : 0 ≤ hits_recorded evs.
Proof. unfold hits_recorded. lia. Qed.

Lemma run_events_snoc evs e it :
  run_events (evs ++ [e]) it = apply_event (run_events evs it) e.
Proof. unfold run_events. apply foldl_snoc. Qed.

Lemma st_record_evaluation o t it :
  st (record_evaluation o t it)
  = {| hits := match o with
               | eval_hit => g_atomic_int_inc (hits (st it))
               | _ => hits (st it)
               end;
       misses := match o with
                 | eval_miss => misses (st it) + 1
                 | _ => misses (st it)
                 end;
       skips := match o with
                | eval_skip => skips (st it) + 1
                | _ => skips (st it)
                end;
       total_time := total_time (st it) + Z.of_N t;
       frequency := frequency (st it);
       peaks := peaks (st it) |}.
Proof. by destruct o. Qed.

(** While the hits counter has not wrapped around, the counters of a
    fresh item count the evaluations of its history. *)
Lemma counters_follow_history c evs :
  hits_recorded evs < 2 ^ 32 →
  hits (st (run_events evs (create c))) = hits_recorded evs
  ∧ 0 ≤ misses (st (run_events evs (create c)))
  ∧ 0 ≤ skips (st (run_events evs (create c)))
  ∧ 0 ≤ total_time (st (run_events evs (create c)))
  ∧ hits (st (run_events evs (create c)))
    + misses (st (run_events evs (create c)))
    + skips (st (run_events evs (create c))) = evaluations evs
  ∧ frequency (st (run_events evs (create c))) = 0
  ∧ peaks (st (run_events evs (create c))) = 0.
Proof.
  induction evs as [|e evs IH] using rev_ind; intros Hn.
  - by destruct c.
  - rewrite hits_recorded_snoc in Hn.
    pose proof (hits_recorded_nonneg evs) as Hne.
    destruct IH as (Hh & Hm & Hs & Ht & Hsum & Hf & Hp).
    { destruct (is_hit e); lia. }
    rewrite run_events_snoc, evaluations_snoc, hits_recorded_snoc.
    destruct e as [o t]. cbn [apply_event].
    rewrite st_record_evaluation. cbn [hits misses skips total_time frequency peaks].
    destruct o; cbn [is_hit] in *;
      rewrite ?g_atomic_int_inc_small by lia; split_and!; lia.
Qed.

Lemma hits_of_hit_history n c :
  hits (st (run_events (replicate n (ev_evaluated eval_hit 0)) (create c)))
  = Z.of_nat n mod 2 ^ 32.
Proof.
  induction n as [|n IH].
  - by destruct c.
  - rewrite replicate_S_end, run_events_snoc. simpl apply_event.
    rewrite st_record_evaluation. cbn [hits].
    rewrite IH. unfold g_atomic_int_inc.
    rewrite Z.add_mod_idemp_l by lia. f_equal. lia.
Qed.

Lemma others_of_hit_history n c :
  misses (st (run_events (replicate n (ev_evaluated eval_hit 0)) (create c))) = 0
  ∧ skips (st (run_events (replicate n (ev_evaluated eval_hit 0)) (create c))) = 0.
Proof.
  induction n as [|n IH].
  - by destruct c.
  - rewrite replicate_S_end, run_events_snoc. simpl apply_event.
    rewrite st_record_evaluation. cbn [misses skips]. exact IH.
Qed.

(** One hit more than the counter can hold: the general form of the
    wrap-around, for a number [n] of hits given in binary. *)
Lemma wrap_at_counter_limit (n : N) c :
  Z.of_N n = 2 ^ 32 - 1 →
  hits (st (run_events (replicate (N.to_nat n) (ev_evaluated eval_hit 0))
              (create c))) = 2 ^ 32 - 1
  ∧ hits (st (apply_event
                (run_events (replicate (N.to_nat n) (ev_evaluated eval_hit 0))
                   (create c))
                (ev_evaluated eval_hit 0))) = 0
  ∧ misses (st (apply_event
                (run_events (replicate (N.to_nat n) (ev_evaluated eval_hit 0))
                   (create c))
                (ev_evaluated eval_hit 0))) = 0
  ∧ skips (st (apply_event
                (run_events (replicate (N.to_nat n) (ev_evaluated eval_hit 0))
                   (create c))
                (ev_evaluated eval_hit 0))) = 0
  ∧ evaluations (replicate (N.to_nat n) (ev_evaluated eval_hit 0)
                   ++ [ev_evaluated eval_hit 0]) = 2 ^ 32
  ∧ hits (st (apply_event
                (run_events (replicate (N.to_nat n) (ev_evaluated eval_hit 0))
                   (create c))
                (ev_evaluated eval_hit 0)))
    < hits (st (run_events (replicate (N.to_nat n) (ev_evaluated eval_hit 0))
                  (create c))).
Proof.
  intros Hn.
  generalize (hits_of_hit_history (N.to_nat n) c).
  generalize (others_of_hit_history (N.to_nat n) c).
  rewrite evaluations_snoc. unfold evaluations. rewrite length_replicate.
  rewrite N_nat_Z, Hn.
  generalize (run_events (replicate (N.to_nat n) (ev_evaluated eval_hit 0))
                (create c)).
  intros it [Hm Hs] Hh.
  cbn [apply_event]. rewrite st_record_evaluation.
  cbn [hits misses skips].
  rewrite Hh. rewrite Z.mod_small in * by lia.
  rewrite g_atomic_int_inc_wraps. split_and!; lia.
Qed.

(** C6, as the spec states it, fails at the wrap-around of the 32-bit
    hits counter: after 2^32 - 1 hits on a fresh item the counter holds
    2^32 - 1, and the next hit takes it down to 0, when 2^32 evaluations
    were performed. *)
Lemma hits_wrap_around :
  let c := with_function 0%N 0 "SYM" 0 1%N 0%N FILTER 0 in
  let evs := replicate (N.to_nat 4294967295) (ev_evaluated eval_hit 0) in
  let it := run_events evs (create c) in
  let it' := apply_event it (ev_evaluated eval_hit 0) in
  hits (st it) = 2 ^ 32 - 1
  ∧ hits (st it') = 0
  ∧ misses (st it') = 0
  ∧ skips (st it') = 0
  ∧ evaluations (evs ++ [ev_evaluated eval_hit 0]) = 2 ^ 32
  ∧ hits (st it') < hits (st it).
Proof.
  exact (wrap_at_counter_limit 4294967295
           (with_function 0%N 0 "SYM" 0 1%N 0%N FILTER 0) eq_refl).
Qed.

(** C6, amended. Within a run, as long as fewer than 2^32 hits of an
    item have been recorded, every counter of its statistics is monotonic
    non-decreasing: the block starts zeroed at creation; every evaluation
    raises by one the counter of its outcome (hits, misses or skips),
    leaves the other two alone and adds the time it took to total_time;
    frequency and peaks stay; and before and after every evaluation
    hits + misses + skips is the number of evaluations performed. *)
Theorem counters_monotone_below_wrap :
  ∀ (c : item_creation) (evs : list run_event) (o : eval_outcome) (t : N),
    hits_recorded (evs ++ [ev_evaluated o t]) < 2 ^ 32 →
    let before := st (run_events evs (create c)) in
    let after := st (run_events (evs ++ [ev_evaluated o t]) (create c)) in
    st (create c) = {| hits := 0; misses := 0; skips := 0; total_time := 0;
                       frequency := 0; peaks := 0 |}
    ∧ hits before ≤ hits after
    ∧ misses before ≤ misses after
    ∧ skips before ≤ skips after
    ∧ total_time before ≤ total_time after
    ∧ hits after
      = hits before + (match o with eval_hit => 1 | _ => 0 end)
    ∧ misses after
      = misses before + (match o with eval_miss => 1 | _ => 0 end)
    ∧ skips after
      = skips before + (match o with eval_skip => 1 | _ => 0 end)
    ∧ total_time after = total_time before + Z.of_N t
    ∧ frequency after = frequency before
    ∧ peaks after = peaks before
    ∧ hits before + misses before + skips before = evaluations evs
    ∧ hits after + misses after + skips after
      = evaluations (evs ++ [ev_evaluated o t]).
Proof.
  intros c evs o t Hn before after. subst before after.
  pose proof (counters_follow_history c (evs ++ [ev_evaluated o t]) Hn)
    as (Hh' & Hm' & Hs' & Ht' & Hsum' & Hf' & Hp').
  rewrite hits_recorded_snoc in Hn.
  pose proof (hits_recorded_nonneg evs) as Hne.
  destruct (counters_follow_history c evs)
    as (Hh & Hm & Hs & Ht & Hsum & Hf & Hp).
  { destruct (is_hit (ev_evaluated o t)); lia. }
  split; [by destruct c|].
  rewrite Hsum', Hf', Hp', Hf, Hp, Hsum.
  rewrite run_events_snoc in Hh', Hm', Hs', Ht', Hsum' |- *.
  cbn [apply_event] in *. rewrite st_record_evaluation in *.
  cbn [hits misses skips total_time] in *.
  rewrite evaluations_snoc in *.
  destruct o; cbn [is_hit] in *;
    rewrite ?g_atomic_int_inc_small in * by lia; split_and!; lia.
Qed.

Lemma counters_monotone_below_wrap_witness :
  let c := with_function 0%N 0 "SYM" 0 1%N 0%N FILTER 0 in
  let evs := [ev_evaluated eval_hit 5; ev_evaluated eval_skip 3] in
  let e := ev_evaluated eval_miss 2 in
  let before := st (run_events evs (create c)) in
  let after := st (run_events (evs ++ [e]) (create c)) in
  st (create c) = {| hits := 0; misses := 0; skips := 0; total_time := 0;
                     frequency := 0; peaks := 0 |}
  ∧ hits before ≤ hits after
  ∧ misses before ≤ misses after
  ∧ skips before ≤ skips after
  ∧ total_time before ≤ total_time after
  ∧ hits after = hits before + 0
  ∧ misses after = misses before + 1
  ∧ skips after = skips before + 0
  ∧ total_time after = total_time before + 2
  ∧ frequency after = frequency before
  ∧ peaks after = peaks before
  ∧ hits before + misses before + skips before = 2
  ∧ hits after + misses after + skips after = 3.
Proof.
  apply (counters_monotone_below_wrap
           (with_function 0%N 0 "SYM" 0 1%N 0%N FILTER 0)
           [ev_evaluated eval_hit 5; ev_evaluated eval_skip 3]
           eval_miss 2); vm_compute; reflexivity.
Defined.

(* ===================================================================== *)
(** * Part IV: properties of the session bindings                         *)
(* ===================================================================== *)

Import LuaSession.

(** ** Running the monad *)

Lemma bind_ok {A B} (m : M A) (k : A → M B) w a w1 :
  m w = Ok a w1 → bind m k w = k a w1.
Proof. intros Hm. unfold bind. by rewrite Hm. Qed.

Lemma bind_ok_inv {A B} (m : M A) (k : A → M B) w b w' :
  bind m k w = Ok b w' → ∃ a w1, m w = Ok a w1 ∧ k a w1 = Ok b w'.
Proof.
  unfold bind. destruct (m w) as [a w1| |] eqn:Hm; intros H; try discriminate.
  by exists a, w1.
Qed.

Lemma returned_values_top w v :
  returned_values 1 (set_stack w (stack (lua w) ++ [v])) = [v].
Proof.
  unfold returned_values. simpl. rewrite length_app. simpl.
  replace (length (stack (lua w)) + 1 - Z.to_nat 1)%nat
    with (length (stack (lua w))) by lia.
  by rewrite drop_app_length.
Qed.

Lemma pushnil_then_return {A} (m : M A) w n w' :
  (m ;;; lua_pushnil ;;; ret 1) w = Ok n w' →
  n = 1 ∧ returned_values n w' = [LNil].
Proof.
  intros H. apply bind_ok_inv in H as (a & w1 & _ & H).
  unfold lua_pushnil, lua_push, modify, bind, ret in H.
  injection H as <- <-. split; [done|]. apply returned_values_top.
Qed.

Section BindingsFacts.

Variable check : lua_State → Z → string → option udata.

Lemma lua_check_session_ok w u cbd :
  check (lua w) 1 "rspamd{session}" = Some u →
  ud_content u = Some cbd →
  lua_check_session check w = Ok cbd w.
Proof.
  intros Hu Hc. unfold lua_check_session, bind, get. rewrite Hu.
  rewrite bool_decide_eq_true_2 by eauto. simpl. by rewrite Hc.
Qed.

Lemma lua_check_session_none w :
  check (lua w) 1 "rspamd{session}" = None →
  lua_check_session check w = LuaError "'session' expected" w.
Proof.
  intros Hu. unfold lua_check_session, bind, get. rewrite Hu.
  by rewrite bool_decide_eq_false_2 by (intros [? ?]; discriminate).
Qed.

Lemma session_of_ok w cbd c :
  session_udata w !! cbd = Some c → session_of cbd w = Ok (session c) w.
Proof. intros Hc. unfold session_of, bind, get. by rewrite Hc. Qed.

Lemma pool_of_ok w cbd c :
  session_udata w !! cbd = Some c → pool_of cbd w = Ok (pool c) w.
Proof. intros Hc. unfold pool_of, bind, get. by rewrite Hc. Qed.

Lemma live_session_test (s : pointer) : s ≠ NULL → negb (s =? NULL)%N = true.
Proof. intros Hs. apply negb_true_iff. by apply N.eqb_neq. Qed.

(** With a live session behind the first argument,
    [lua_session_check_session_pending] changes nothing and answers 1. *)
Lemma check_session_pending_live w u cbd c :
  check (lua w) 1 "rspamd{session}" = Some u →
  ud_content u = Some cbd →
  session_udata w !! cbd = Some c →
  session c ≠ NULL →
  lua_session_check_session_pending check w = Ok 1 w.
Proof.
  intros Hu Hc Hcbd Hlive. unfold lua_session_check_session_pending.
  rewrite (bind_ok _ _ _ _ _ (lua_check_session_ok w u cbd Hu Hc)).
  rewrite (bind_ok _ _ _ _ _ (session_of_ok w cbd c Hcbd)).
  by rewrite (live_session_test _ Hlive).
Qed.

End BindingsFacts.

(** C8. The two stubs of the sources: [call] on an item that is not
    virtual gives back the item as it was, counters included, and
    [normal_item::call] is the identity on the callback data; with a live
    session behind its first argument [lua_session_check_session_pending]
    leaves the Lua stack, and everything else, as it found it: it pushes no
    value, and still answers that it returns one. *)
Theorem stubs_have_no_effect :
  (∀ n : normal_item, normal_item_call n = n)
  ∧ (∀ it : cache_item, is_virtual it = false →
       call it = Some it ∧ st (default it (call it)) = st it)
  ∧ (∀ (check : lua_State → Z → string → option udata)
       (w : world) (u : udata) (cbd : LuaSession.pointer)
       (c : lua_session_udata),
       check (lua w) 1 "rspamd{session}" = Some u →
       ud_content u = Some cbd →
       session_udata w !! cbd = Some c →
       session c ≠ NULL →
       lua_session_check_session_pending check w = Ok 1 w).
Proof.
  split_and!.
  - done.
  - intros it Hv. unfold is_virtual in Hv.
    destruct (specific it) as [n|v] eqn:Hs; [|discriminate].
    rewrite (call_normal it n Hs). done.
  - intros check w u cbd c Hu Hc Hcbd Hlive.
    by eapply check_session_pending_live.
Qed.

Lemma stubs_have_no_effect_witness :
  call (create_with_function 0%N 0 "SYM" 0 1%N 0%N FILTER 0)
  = Some (create_with_function 0%N 0 "SYM" 0 1%N 0%N FILTER 0)
  ∧ lua_session_check_session_pending check_udata_by_class (sample_world [])
    = Ok 1 (sample_world []).
Proof.
  split.
  - apply (proj1 (proj2 stubs_have_no_effect)). reflexivity.
  - apply (proj2 (proj2 stubs_have_no_effect) check_udata_by_class
             (sample_world [])
             (mk_udata (Some "rspamd{session}") (Some 10%N)) 10%N
             sample_session_udata); [reflexivity..|discriminate].
Defined.

Section RegisterFacts.

Variable check : lua_State → Z → string → option udata.

Lemma lua_isfunction_userdata w idx u :
  index2value (lua w) idx = Some (LUserdata u) →
  lua_isfunction idx w = Ok false w.
Proof. intros Hv. unfold lua_isfunction, bind, get, ret. by rewrite Hv. Qed.

Lemma register_on_userdata w u cbd c :
  check (lua w) 1 "rspamd{session}" = Some u →
  index2value (lua w) 1 = Some (LUserdata u) →
  ud_content u = Some cbd →
  session_udata w !! cbd = Some c →
  session c ≠ NULL →
  lua_session_register_async_event check w
  = Ok 1 (set_stack
            (set_log w (log w ++ ["invalid finalizer argument to register async event"]))
            (stack (lua w) ++ [LNil])).
Proof.
  intros Hu Hv Hc Hcbd Hlive. unfold lua_session_register_async_event.
  rewrite (bind_ok _ _ _ _ _ (lua_check_session_ok check w u cbd Hu Hc)).
  rewrite (bind_ok _ _ _ _ _ (session_of_ok w cbd c Hcbd)).
  rewrite (live_session_test _ Hlive).
  unfold bind at 1. unfold bind at 1.
  by rewrite (lua_isfunction_userdata w 1 u Hv).
Qed.

End RegisterFacts.

Lemma check_udata_by_class_sound : check_udata_sound check_udata_by_class.
Proof.
  intros l pos cls u. unfold check_udata_by_class.
  destruct (index2value l pos) as [[| | | | |u']|]; try discriminate.
  case_decide; [|discriminate]. by intros [= ->].
Qed.

(** C7 on the code. Whatever follows the session userdata on the stack, a
    function included, [lua_session_register_async_event] on a live
    session tests index 1, which holds the session userdata and never a
    function: it logs the complaint about the finalizer, pushes nil and
    returns; the outstanding events of every session and the event blocks
    are the same as before. *)
Theorem register_async_event_adds_no_event :
  ∀ (check : lua_State → Z → string → option udata) (w : world)
    (u : udata) (cbd : LuaSession.pointer) (c : lua_session_udata),
    check_udata_sound check →
    check (lua w) 1 "rspamd{session}" = Some u →
    ud_content u = Some cbd →
    session_udata w !! cbd = Some c →
    session c ≠ NULL →
    let w' :=
      set_stack
        (set_log w (log w ++ ["invalid finalizer argument to register async event"]))
        (stack (lua w) ++ [LNil]) in
    lua_session_register_async_event check w = Ok 1 w'
    ∧ sessions w' = sessions w
    ∧ event_udata w' = event_udata w
    ∧ returned_values 1 w' = [LNil].
Proof.
  intros check w u cbd c Hsound Hu Hc Hcbd Hlive w'. subst w'.
  split_and!; try done.
  - apply (register_on_userdata check w u cbd c Hu (Hsound _ _ _ _ Hu) Hc Hcbd Hlive).
  - apply (returned_values_top
             (set_log w (log w ++ ["invalid finalizer argument to register async event"]))).
Qed.

Lemma register_async_event_adds_no_event_witness :
  let w := sample_world [LFunction 8%N] in
  let w' :=
    set_stack
      (set_log w (log w ++ ["invalid finalizer argument to register async event"]))
      (stack (lua w) ++ [LNil]) in
  index2value (lua w) 2 = Some (LFunction 8%N)
  ∧ sessions w !! 20%N = Some []
  ∧ lua_session_register_async_event check_udata_by_class w = Ok 1 w'
  ∧ sessions w' = sessions w
  ∧ event_udata w' = event_udata w
  ∧ returned_values 1 w' = [LNil].
Proof.
  split; [reflexivity|]. split; [reflexivity|].
  apply (register_async_event_adds_no_event check_udata_by_class
           (sample_world [LFunction 8%N])
           (mk_udata (Some "rspamd{session}") (Some 10%N)) 10%N
           sample_session_udata check_udata_by_class_sound);
    [reflexivity..|discriminate].
Defined.

(** ** Steps of the branch that registers an event *)

Lemma assign_event_udata_ok p f w e :
  event_udata w !! p = Some e →
  assign_event_udata p f w
  = Ok () (set_event_udata w (<[p := f e]> (event_udata w)) (brk w)).
Proof. intros He. unfold assign_event_udata, bind, get, modify. by rewrite He. Qed.

Lemma luaL_ref_ok w s v :
  stack (lua w) = s ++ [v] → v ≠ LNil →
  luaL_ref w
  = Ok (next_ref (lua w))
      (set_lua w {| stack := s;
                    registry := <[next_ref (lua w) := v]> (registry (lua w));
                    next_ref := next_ref (lua w) + 1 |}).
Proof.
  intros Hs Hv. unfold luaL_ref, bind, get, modify, ret.
  rewrite Hs, reverse_snoc, reverse_involutive. by destruct v.
Qed.

Lemma rspamd_session_add_event_ok w s f ud subsys evs :
  sessions w !! s = Some evs →
  rspamd_session_add_event s f ud subsys w
  = Ok () (set_sessions w
             (<[s := evs ++ [mk_async_event f ud subsys]]> (sessions w))
             (finalized w)).
Proof.
  intros Hs. unfold rspamd_session_add_event, bind, get, modify. by rewrite Hs.
Qed.

Lemma update_udata_top w s u f :
  stack (lua w) = s ++ [LUserdata u] →
  update_udata f (-1) w = Ok () (set_stack w (s ++ [LUserdata (f u)])).
Proof.
  intros Hs. unfold update_udata, index2pos, bind, get, modify, ret.
  rewrite Hs, length_app. simpl.
  replace (Z.of_nat (length s + 1) + -1) with (Z.of_nat (length s)) by lia.
  rewrite (proj2 (Z.leb_le 0 _)) by lia.
  rewrite Nat2Z.id, list_lookup_middle by done.
  f_equal. f_equal. rewrite Hs.
  rewrite insert_app_r_alt by done. by rewrite Nat.sub_diag.
Qed.

(** Were index 1 a function, a live session would get the event, and the
    event userdata would stay on the stack under the nil that is returned. *)
Lemma register_success_branch check w u cbd c f evs :
  check (lua w) 1 "rspamd{session}" = Some u →
  ud_content u = Some cbd →
  session_udata w !! cbd = Some c →
  session c ≠ NULL →
  index2value (lua w) 1 = Some (LFunction f) →
  sessions w !! session c = Some evs →
  ∃ w',
    lua_session_register_async_event check w = Ok 1 w'
    ∧ sessions w' !! session c
      = Some (evs ++ [mk_async_event lua_event_fin (brk w + 1)%N "lua event"])
    ∧ stack (lua w')
      = stack (lua w)
        ++ [LUserdata (mk_udata (Some "rspamd{event}") (Some (brk w + 1)%N)); LNil].
Proof.
  intros Hu Hc Hcbd Hlive Hf Hs. unfold lua_session_register_async_event.
  rewrite (bind_ok _ _ _ _ _ (lua_check_session_ok check w u cbd Hu Hc)).
  rewrite (bind_ok _ _ _ _ _ (session_of_ok w cbd c Hcbd)).
  rewrite (live_session_test _ Hlive).
  unfold bind at 1. unfold bind at 1.
  unfold lua_isfunction at 1, bind at 1, get at 1, ret at 1. rewrite Hf.
  rewrite (bind_ok _ _ _ _ _ (pool_of_ok w cbd c Hcbd)).
  unfold rspamd_mempool_alloc_event_udata.
  unfold bind at 1. unfold bind at 1. unfold get at 1.
  unfold bind at 1. unfold modify at 1, ret at 1.
  unfold bind at 1. unfold get at 1.
  erewrite (bind_ok (assign_event_udata _ _)); last first.
  { apply assign_event_udata_ok. simpl. apply lookup_insert_eq. }
  unfold lua_pushvalue at 1.
  unfold bind at 1, bind at 1, get at 1, lua_push at 1, modify at 1.
  erewrite (bind_ok luaL_ref); last first.
  { eapply luaL_ref_ok; [reflexivity|]. simpl. by rewrite Hf. }
  erewrite (bind_ok (assign_event_udata _ _)); last first.
  { apply assign_event_udata_ok. simpl. apply lookup_insert_eq. }
  erewrite (bind_ok (assign_event_udata _ _)); last first.
  { apply assign_event_udata_ok. simpl. apply lookup_insert_eq. }
  erewrite (bind_ok (rspamd_session_add_event _ _ _ _)); last first.
  { apply rspamd_session_add_event_ok. simpl. exact Hs. }
  unfold lua_newuserdata at 1, lua_push at 1.
  unfold bind at 1, modify at 1.
  unfold rspamd_lua_setclass.
  erewrite (bind_ok (update_udata _ _)); last first.
  { apply update_udata_top. simpl. reflexivity. }
  unfold store_udata.
  unfold bind at 1.
  erewrite update_udata_top; last first.
  { simpl. reflexivity. }
  unfold lua_pushnil, lua_push, bind, modify, ret.
  eexists. split; [reflexivity|]. simpl. split.
  - apply lookup_insert_eq.
  - by rewrite <- app_assoc.
Qed.

Lemma register_dead_session check w u cbd c :
  check (lua w) 1 "rspamd{session}" = Some u →
  ud_content u = Some cbd →
  session_udata w !! cbd = Some c →
  session c = NULL →
  lua_session_register_async_event check w
  = Ok 1 (set_stack w (stack (lua w) ++ [LNil])).
Proof.
  intros Hu Hc Hcbd Hdead. unfold lua_session_register_async_event.
  rewrite (bind_ok _ _ _ _ _ (lua_check_session_ok check w u cbd Hu Hc)).
  rewrite (bind_ok _ _ _ _ _ (session_of_ok w cbd c Hcbd)).
  by rewrite Hdead.
Qed.

Lemma register_no_function check w u cbd c :
  check (lua w) 1 "rspamd{session}" = Some u →
  ud_content u = Some cbd →
  session_udata w !! cbd = Some c →
  session c ≠ NULL →
  (∀ f, index2value (lua w) 1 ≠ Some (LFunction f)) →
  lua_session_register_async_event check w
  = Ok 1 (set_stack
            (set_log w (log w ++ ["invalid finalizer argument to register async event"]))
            (stack (lua w) ++ [LNil])).
Proof.
  intros Hu Hc Hcbd Hlive Hnf. unfold lua_session_register_async_event.
  rewrite (bind_ok _ _ _ _ _ (lua_check_session_ok check w u cbd Hu Hc)).
  rewrite (bind_ok _ _ _ _ _ (session_of_ok w cbd c Hcbd)).
  rewrite (live_session_test _ Hlive).
  unfold bind at 1. unfold bind at 1.
  unfold lua_isfunction at 1, bind at 1, get at 1, ret at 1.
  destruct (index2value (lua w) 1) as [[| | | |f|]|] eqn:Hv; try done.
  by destruct (Hnf f).
Qed.

(** C9. Whenever [lua_session_register_async_event] returns, it returns
    one value and that value is nil; it does return whenever the first
    argument is a session userdata whose session is dead or known; and in
    the branch that creates the event userdata and registers the event,
    the userdata is left on the stack under the nil that is returned. *)
Theorem register_async_event_returns_nil :
  ∀ (check : lua_State → Z → string → option udata) (w : world),
    (∀ n w', lua_session_register_async_event check w = Ok n w' →
             n = 1 ∧ returned_values n w' = [LNil])
    ∧ (∀ u cbd c,
         check (lua w) 1 "rspamd{session}" = Some u →
         ud_content u = Some cbd →
         session_udata w !! cbd = Some c →
         session c = NULL ∨ is_Some (sessions w !! session c) →
         ∃ w', lua_session_register_async_event check w = Ok 1 w'
               ∧ returned_values 1 w' = [LNil])
    ∧ (∀ u cbd c f evs,
         check (lua w) 1 "rspamd{session}" = Some u →
         ud_content u = Some cbd →
         session_udata w !! cbd = Some c →
         session c ≠ NULL →
         index2value (lua w) 1 = Some (LFunction f) →
         sessions w !! session c = Some evs →
         ∃ w', lua_session_register_async_event check w = Ok 1 w'
               ∧ sessions w' !! session c
                 = Some (evs ++ [mk_async_event lua_event_fin (brk w + 1)%N
                                   "lua event"])
               ∧ stack (lua w')
                 = stack (lua w)
                   ++ [LUserdata (mk_udata (Some "rspamd{event}")
                                    (Some (brk w + 1)%N)); LNil]
               ∧ returned_values 1 w' = [LNil]).
Proof.
  intros check w.
  assert (Hret : ∀ n w', lua_session_register_async_event check w = Ok n w' →
                         n = 1 ∧ returned_values n w' = [LNil]).
  { intros n w' H. unfold lua_session_register_async_event in H.
    apply bind_ok_inv in H as (cbd & w1 & _ & H).
    apply bind_ok_inv in H as (s & w2 & _ & H).
    by apply pushnil_then_return in H. }
  split_and!.
  - exact Hret.
  - intros u cbd c Hu Hc Hcbd Hs.
    assert (∃ w', lua_session_register_async_event check w = Ok 1 w')
      as [w' Hw'].
    { destruct (decide (session c = NULL)) as [Hdead|Hlive].
      { eexists. by apply (register_dead_session check w u cbd c). }
      destruct Hs as [Hdead|[evs Hevs]]; [done|].
      destruct (index2value (lua w) 1) as [[| | | |f|]|] eqn:Hv;
        try (eexists; by apply (register_no_function check w u cbd c);
               try (intros f'; rewrite Hv)).
      destruct (register_success_branch check w u cbd c f evs)
        as (w' & Hw' & _); try done.
      by exists w'. }
    exists w'. split; [done|]. by apply (Hret 1 w').
  - intros u cbd c f evs Hu Hc Hcbd Hlive Hf Hs.
    destruct (register_success_branch check w u cbd c f evs)
      as (w' & Hw' & Hev & Hst); try done.
    exists w'. split_and!; try done. by apply (Hret 1 w').
Qed.

Lemma register_async_event_returns_nil_witness :
  (1 = 1
   ∧ returned_values 1
       (set_stack
          (set_log (sample_world [LFunction 8%N])
             ["invalid finalizer argument to register async event"])
          (stack (lua (sample_world [LFunction 8%N])) ++ [LNil]))
     = [LNil])
  ∧ (∃ w', lua_session_register_async_event check_udata_by_class
             (sample_world [LFunction 8%N]) = Ok 1 w'
           ∧ returned_values 1 w' = [LNil])
  ∧ (∃ w', lua_session_register_async_event check_udata_any
             (world_with_stack [LFunction 8%N]) = Ok 1 w'
           ∧ sessions w' !! 20%N
             = Some [mk_async_event lua_event_fin 101%N "lua event"]
           ∧ stack (lua w')
             = [LFunction 8%N;
                LUserdata (mk_udata (Some "rspamd{event}") (Some 101%N));
                LNil]
           ∧ returned_values 1 w' = [LNil]).
Proof.
  split; [|split].
  - apply (proj1 (register_async_event_returns_nil check_udata_by_class
                    (sample_world [LFunction 8%N]))).
    reflexivity.
  - apply (proj1 (proj2 (register_async_event_returns_nil check_udata_by_class
                           (sample_world [LFunction 8%N])))
             (mk_udata (Some "rspamd{session}") (Some 10%N)) 10%N
             sample_session_udata); [reflexivity..|].
    right. exists []. reflexivity.
  - apply (proj2 (proj2 (register_async_event_returns_nil check_udata_any
                           (world_with_stack [LFunction 8%N])))
             (mk_udata (Some "rspamd{session}") (Some 10%N)) 10%N
             sample_session_udata 8%N []); try reflexivity.
    discriminate.
Defined.

(** ** Further facts on the bindings *)

(** With a helper that answers only userdata blocks, no outcome of
    [lua_session_register_async_event] has touched the outstanding events
    or the event blocks: the registering branch is never taken. *)
Lemma register_async_event_never_registers check w :
  check_udata_sound check →
  match lua_session_register_async_event check w with
  | Ok _ w' | LuaError _ w' =>
      sessions w' = sessions w ∧ event_udata w' = event_udata w
  | Fault => True
  end.
Proof.
  intros Hsound.
  destruct (check (lua w) 1 "rspamd{session}") as [u|] eqn:Hu.
  - destruct (ud_content u) as [cbd|] eqn:Hc.
    + destruct (session_udata w !! cbd) as [c|] eqn:Hcbd.
      * destruct (decide (session c = NULL)) as [Hdead|Hlive].
        -- by rewrite (register_dead_session check w u cbd c).
        -- by rewrite (register_on_userdata check w u cbd c Hu
                         (Hsound _ _ _ _ Hu)).
      * unfold lua_session_register_async_event.
        rewrite (bind_ok _ _ _ _ _ (lua_check_session_ok check w u cbd Hu Hc)).
        unfold bind at 1. unfold session_of, bind, get. by rewrite Hcbd.
    + unfold lua_session_register_async_event, bind at 1, bind at 1.
      unfold lua_check_session, bind, get. rewrite Hu.
      rewrite bool_decide_eq_true_2 by eauto. simpl. by rewrite Hc.
  - unfold lua_session_register_async_event, bind at 1, bind at 1.
    by rewrite (lua_check_session_none check w Hu).
Qed.

(** [lua_session_remove_normal_event] on a live session and an event
    userdata at index 2 hands the event to the session for removal with
    [lua_event_fin] and returns no value. *)
Lemma remove_normal_event_live check w u cbd c e data evs evs' :
  check (lua w) 1 "rspamd{session}" = Some u →
  ud_content u = Some cbd →
  session_udata w !! cbd = Some c →
  session c ≠ NULL →
  check (lua w) 2 "rspamd{event}" = Some e →
  ud_content e = Some data →
  data ≠ NULL →
  sessions w !! session c = Some evs →
  remove_first_event lua_event_fin data evs = Some evs' →
  lua_session_remove_normal_event check w
  = Ok 0 (set_sessions w (<[session c := evs']> (sessions w))
            (finalized w ++ [(lua_event_fin, data)])).
Proof.
  intros Hu Hc Hcbd Hlive He Hd Hdata Hs Hrm.
  unfold lua_session_remove_normal_event.
  rewrite (bind_ok _ _ _ _ _ (lua_check_session_ok check w u cbd Hu Hc)).
  rewrite (bind_ok _ _ _ _ _ (session_of_ok w cbd c Hcbd)).
  rewrite (live_session_test _ Hlive).
  assert (lua_check_event check 2 w = Ok data w) as Hev.
  { unfold lua_check_event, bind, get. rewrite He.
    rewrite bool_decide_eq_true_2 by eauto. simpl. by rewrite Hd. }
  rewrite (bind_ok _ _ _ _ _ Hev).
  rewrite (live_session_test _ Hdata).
  unfold rspamd_session_remove_event, bind, get, modify, ret.
  by rewrite Hs, Hrm.
Qed.

(* ===================================================================== *)
(** * Part V: more on the cache item                                      *)
(* ===================================================================== *)

Import SymcacheOps.

Lemma symcache_item_type_eqb_eq a b :
  symcache_item_type_eqb a b = true ↔ a = b.
Proof. destruct a, b; simpl; split; (done || discriminate). Qed.

(** X1. Which items take a score: every filter item ([is_filter]) and
    every virtual item is scoreable, whatever its type; an item with
    callback data is scoreable exactly when its type is FILTER, COMPOSITE
    or CLASSIFIER, so callback items of the connection, pre, post and
    idempotent stages, or of type VIRTUAL, are not. *)
Theorem scoreable_items :
  ∀ it : cache_item,
    (is_filter it = true → is_scoreable it = true)
    ∧ (is_virtual it = true → is_scoreable it = true)
    ∧ (is_virtual it = false →
       (is_scoreable it = true
        ↔ type it = FILTER ∨ type it = COMPOSITE ∨ type it = CLASSIFIER)).
Proof.
  intros it. unfold is_filter, is_scoreable, is_virtual.
  destruct (specific it) as [n|v]; simpl.
  - split_and!; try done.
    + intros H. by rewrite H.
    + intros _. rewrite !orb_false_r, !orb_true_iff.
      rewrite !symcache_item_type_eqb_eq. tauto.
  - split_and!; try done. intros _. by rewrite orb_true_r.
Qed.

Lemma scoreable_items_witness :
  is_scoreable (create_with_function 0%N 0 "SYM" 0 1%N 0%N FILTER 0) = true
  ∧ is_scoreable (create_with_virtual 0%N 1 "ALIAS" 0 PREFILTER 0) = true
  ∧ (is_scoreable (create_with_function 0%N 2 "PRE" 0 1%N 0%N PREFILTER 0) = true
     ↔ PREFILTER = FILTER ∨ PREFILTER = COMPOSITE ∨ PREFILTER = CLASSIFIER).
Proof.
  split; [|split].
  - apply (proj1 (scoreable_items _)). reflexivity.
  - apply (proj1 (proj2 (scoreable_items _))). reflexivity.
  - apply (proj2 (proj2 (scoreable_items
             (create_with_function 0%N 2 "PRE" 0 1%N 0%N PREFILTER 0)))).
    reflexivity.
Defined.

(** ** What a sequence of member calls leaves of an item *)

Lemma run_ops_snoc ops o it :
  run_ops (ops ++ [o]) it = apply_op (run_ops ops it) o.
Proof. unfold run_ops. apply foldl_snoc. Qed.

Lemma apply_op_frame it o s t :
  set_st (set_specific (apply_op it o) s) t = set_st (set_specific it s) t.
Proof.
  destruct o as [L cbref| |]; simpl.
  - destruct (specific it) as [n|v] eqn:Hs.
    + by rewrite (add_condition_normal L cbref it n Hs).
    + by rewrite (add_condition_virtual L cbref it v Hs).
  - done.
  - unfold call. by destruct (specific it).
Qed.

(** X2. Calls of [add_condition], [inc_frequency] and [call], in any number
    and order, change nothing of an item but its counters block and its
    callback data: id, name, type, flags, priority, order, the enabled
    gate, the id lists and the dependencies stay, and with them the
    answers of [is_virtual], [is_filter], [is_scoreable] and [is_ghost]. *)
Theorem member_calls_keep_identity :
  ∀ (ghost : Z) (ops : list item_op) (it : cache_item),
    id (run_ops ops it) = id it
    ∧ get_name (run_ops ops it) = get_name it
    ∧ get_type (run_ops ops it) = get_type it
    ∧ get_flags (run_ops ops it) = get_flags it
    ∧ priority (run_ops ops it) = priority it
    ∧ order (run_ops ops it) = order it
    ∧ enabled (run_ops ops it) = enabled it
    ∧ last_count (run_ops ops it) = last_count it
    ∧ frequency_peaks (run_ops ops it) = frequency_peaks it
    ∧ allowed_ids (run_ops ops it) = allowed_ids it
    ∧ exec_only_ids (run_ops ops it) = exec_only_ids it
    ∧ forbidden_ids (run_ops ops it) = forbidden_ids it
    ∧ deps (run_ops ops it) = deps it
    ∧ rdeps (run_ops ops it) = rdeps it
    ∧ is_virtual (run_ops ops it) = is_virtual it
    ∧ is_filter (run_ops ops it) = is_filter it
    ∧ is_scoreable (run_ops ops it) = is_scoreable it
    ∧ is_ghost ghost (run_ops ops it) = is_ghost ghost it.
Proof.
  intros ghost ops it.
  assert (Hfix : set_st (set_specific (run_ops ops it) (specific it)) (st it)
                 = it
                 ∧ is_virtual (run_ops ops it) = is_virtual it).
  { induction ops as [|o ops [IH IHv]] using rev_ind.
    - split; [|done]. by destruct it.
    - rewrite run_ops_snoc. split.
      + by rewrite apply_op_frame.
      + by rewrite apply_op_keeps_variant. }
  destruct Hfix as [Hfix Hv].
  assert (Hty : type (run_ops ops it) = type it) by (by rewrite <- Hfix at 2).
  assert (Hfl : flags (run_ops ops it) = flags it) by (by rewrite <- Hfix at 2).
  unfold get_name, get_type, get_flags, is_ghost, is_scoreable.
  rewrite Hv, Hty, Hfl.
  split_and!; try done; try (by rewrite <- Hfix at 2).
  unfold is_filter. rewrite Hty. unfold is_virtual in Hv.
  by destruct (specific (run_ops ops it)), (specific it).
Qed.

(* ===================================================================== *)
(** * Part VI: properties of the content type benchmark                   *)
(* ===================================================================== *)

Import ContentTypeBench.

(** X5. The options of the benchmark. With the program name and at most
    one argument, that argument is a file name and the mode is the normal
    one, also when it reads [-g] or [-c]. With more arguments, a first
    argument that starts with [-] is taken as the option and not read as a
    file: its second character selects the gmime mode ([g]) or the
    comparison ([c]), and any other option selects the normal mode without
    a complaint; a first argument that does not start with [-] is a file
    like the rest. *)
Theorem bench_options :
  ∀ argv : list string,
    ((length argv ≤ 2)%nat → select_mode argv = (1, MODE_NORMAL))
    ∧ (∀ prog rest f files,
         argv = prog :: String char_minus rest :: f :: files →
         select_mode argv
         = (2, if bool_decide (char_at rest 0 = char_g) then MODE_GMIME
               else if bool_decide (char_at rest 0 = char_c) then MODE_COMPARE
               else MODE_NORMAL))
    ∧ (∀ prog a f files,
         argv = prog :: a :: f :: files →
         char_at a 0 ≠ char_minus →
         select_mode argv = (1, MODE_NORMAL)).
Proof.
  intros argv. split_and!.
  - intros Hlen. unfold select_mode.
    rewrite (proj2 (Z.ltb_ge 2 (Z.of_nat (length argv)))) by lia. reflexivity.
  - intros prog rest f files ->. unfold select_mode.
    rewrite (proj2 (Z.ltb_lt 2 _)) by (rewrite !length_cons; lia). simpl.
    reflexivity.
  - intros prog a f files -> Ha. unfold select_mode.
    rewrite (proj2 (Z.ltb_lt 2 _)) by (rewrite !length_cons; lia). simpl.
    by rewrite bool_decide_eq_false_2 by done.
Qed.

Lemma bench_options_witness :
  select_mode ["bench"; "-g"] = (1, MODE_NORMAL)
  ∧ select_mode ["bench"; "-c"; "headers.txt"] = (2, MODE_COMPARE)
  ∧ select_mode ["bench"; "-x"; "headers.txt"] = (2, MODE_NORMAL)
  ∧ select_mode ["bench"; "a.txt"; "headers.txt"] = (1, MODE_NORMAL).
Proof.
  split_and!.
  - apply (proj1 (bench_options ["bench"; "-g"])). simpl. lia.
  - apply (proj1 (proj2 (bench_options ["bench"; "-c"; "headers.txt"]))
             "bench" "c" "headers.txt" []). reflexivity.
  - apply (proj1 (proj2 (bench_options ["bench"; "-x"; "headers.txt"]))
             "bench" "x" "headers.txt" []). reflexivity.
  - apply (proj2 (proj2 (bench_options ["bench"; "a.txt"; "headers.txt"]))
             "bench" "a.txt" "headers.txt" []); [reflexivity|].
    intros H. discriminate H.
Defined.

Lemma g_ascii_isspace_codes c :
  g_ascii_isspace c
  = bool_decide (Ascii.N_of_ascii c ∈ [9; 10; 12; 13; 32]%N).
Proof. destruct c as [[] [] [] [] [] [] [] []]; vm_compute; reflexivity. Qed.

(** X6. The loop on the line buffer drops exactly the trailing white space
    of the counted view, where white space is what [g_ascii_isspace]
    accepts: tab, line feed, form feed, carriage return and space, and not
    the vertical tab. The new length is at most the old one, every
    character between the two is white space, the character before the new
    length, if there is one, is not, and running the loop again changes
    nothing. *)
Theorem strip_len_trailing_space :
  ∀ (str : string) (len : nat),
    (∀ c, g_ascii_isspace c
          = bool_decide (Ascii.N_of_ascii c ∈ [9; 10; 12; 13; 32]%N))
    ∧ (strip_len str len ≤ len)%nat
    ∧ (∀ i, (strip_len str len ≤ i < len)%nat →
            g_ascii_isspace (char_at str i) = true)
    ∧ (∀ k, strip_len str len = S k →
            g_ascii_isspace (char_at str k) = false)
    ∧ strip_len str (strip_len str len) = strip_len str len.
Proof.
  intros str len. split; [exact g_ascii_isspace_codes|].
  induction len as [|k (IHle & IHsp & IHlast & IHidem)].
  - simpl. split_and!; try done. intros i Hi. lia.
  - simpl. destruct (g_ascii_isspace (char_at str k)) eqn:Hk.
    + split_and!; try done.
      * lia.
      * intros i Hi. destruct (decide (i = k)) as [->|Hne]; [done|].
        apply IHsp. lia.
    + split_and!; try done.
      * intros i Hi. lia.
      * intros k' [= <-]. done.
      * simpl. by rewrite Hk.
Qed.

Lemma strip_len_trailing_space_witness :
  g_ascii_isspace (Ascii.ascii_of_N 11) = false
  ∧ (strip_len "text/plain  " 12 ≤ 12)%nat
  ∧ g_ascii_isspace (char_at "text/plain  " 11) = true
  ∧ g_ascii_isspace (char_at "text/plain  " 9) = false
  ∧ strip_len "text/plain  " (strip_len "text/plain  " 12)
    = strip_len "text/plain  " 12.
Proof.
  split_and!.
  - exact (proj1 (strip_len_trailing_space "text/plain  " 12)
             (Ascii.ascii_of_N 11)).
  - apply (proj1 (proj2 (strip_len_trailing_space "text/plain  " 12))).
  - apply (proj1 (proj2 (proj2 (strip_len_trailing_space "text/plain  " 12)))).
    simpl. lia.
  - apply (proj1 (proj2 (proj2 (proj2
             (strip_len_trailing_space "text/plain  " 12))))).
    reflexivity.
  - apply (proj2 (proj2 (proj2 (proj2
             (strip_len_trailing_space "text/plain  " 12))))).
Defined.

(** ** The counters of the benchmark *)

Lemma gint_inc_small v : - 2 ^ 31 ≤ v < 2 ^ 31 - 1 → gint_inc v = v + 1.
Proof.
  intros Hv. unfold gint_inc. rewrite Z.mod_small by lia. lia.
Qed.

Section BenchFacts.

Variable time : Type.
Variable time_zero : time.
Variable time_add time_sub : time → time → time.
Variable parse : string → option rspamd_content_type.
Variable gmime : string → option gmime_content_type.
Variable casecmp : string → string → Z.
Variable files : string → option (file_content time).

Local Abbreviation line_step := (process_line time time_add time_sub parse gmime casecmp).
Local Abbreviation file_step := (rspamd_process_file time time_add time_sub parse gmime casecmp files).

Lemma count_if_bounds b v hi :
  0 ≤ v ≤ hi → hi < 2 ^ 31 - 1 → 0 ≤ count_if b v ≤ hi + 1.
Proof.
  intros Hv Hhi. unfold count_if. destruct b; [|lia].
  rewrite gint_inc_small by lia. lia.
Qed.

Lemma compare_token_bounds mk ours theirs v out hi :
  0 ≤ v ≤ hi → hi < 2 ^ 31 - 1 →
  0 ≤ (compare_token casecmp mk ours theirs v out).1 ≤ hi + 1.
Proof.
  intros Hv Hhi. unfold compare_token.
  destruct theirs as [t|]; simpl; [|lia].
  destruct (negb (String.length ours =? 0)%nat); simpl; [|lia].
  destruct (casecmp ours t =? 0); simpl; [|lia].
  rewrite gint_inc_small by lia. lia.
Qed.

Lemma process_line_inv mode k s line :
  bench_inv mode k s → 0 ≤ k < 2 ^ 31 - 1 →
  bench_inv mode (k + 1) (line_step mode s line).
Proof.
  intros ((Hvalid & Hty & Hsty & Hcs & Hat) & Hk & Hattrs) Hb.
  destruct s as [tot out]. destruct line as [str [t1 t2]]. simpl in *.
  unfold process_line, bench_inv, counters_consistent.
  destruct (mode =? MODE_NORMAL) eqn:Hn.
  { apply Z.eqb_eq in Hn.
    destruct (parse _) as [c|]; simpl;
      rewrite ?gint_inc_small by lia;
      split_and!; try lia; try (intros; lia);
      try (eapply Z.le_trans; [|apply Z.eq_le_incl; reflexivity]);
      try (apply count_if_bounds; lia);
      try (pose proof (count_if_bounds (negb (String.length (ct_type c) =? 0)%nat)
                         (total_type tot) (total_valid tot)) as H; lia).
    all: try (pose proof (count_if_bounds (negb (String.length (ct_subtype c) =? 0)%nat)
                         (total_subtype tot) (total_valid tot)) as H; lia).
    all: try (pose proof (count_if_bounds (negb (String.length (ct_charset c) =? 0)%nat)
                         (total_charset tot) (total_valid tot)) as H; lia).
    all: try (pose proof (count_if_bounds (ct_attrs c)
                         (total_attrs tot) (total_valid tot)) as H; lia). }
  destruct (mode =? MODE_GMIME) eqn:Hg.
  { apply Z.eqb_eq in Hg.
    destruct (gmime _) as [g|]; simpl;
      rewrite ?gint_inc_small by lia;
      split_and!; try lia; try (intros; lia).
    all: try (pose proof (count_if_bounds (bool_decide (is_Some (media_type g)))
                         (total_type tot) (total_valid tot)) as H; lia).
    all: try (pose proof (count_if_bounds (bool_decide (is_Some (media_subtype g)))
                         (total_subtype tot) (total_valid tot)) as H; lia).
    all: try (pose proof (count_if_bounds (bool_decide (is_Some (charset_parameter g)))
                         (total_charset tot) (total_valid tot)) as H; lia).
    all: try (pose proof (count_if_bounds (has_params g)
                         (total_attrs tot) (total_valid tot)) as H; lia). }
  apply Z.eqb_neq in Hn, Hg. specialize (Hattrs Hn Hg).
  destruct (gmime _) as [g|], (parse _) as [c|]; simpl;
    try (rewrite ?gint_inc_small by lia; split_and!; try lia; intros; lia).
  pose proof (compare_token_bounds diag_type (ct_type c) (media_type g)
                (total_type tot) out (total_valid tot)) as H1.
  destruct (compare_token casecmp diag_type _ _ _ _) as [ty out1].
  pose proof (compare_token_bounds diag_subtype (ct_subtype c) (media_subtype g)
                (total_subtype tot) out1 (total_valid tot)) as H2.
  destruct (compare_token casecmp diag_subtype _ _ _ _) as [sty out2].
  pose proof (compare_token_bounds diag_charset (ct_charset c)
                (charset_parameter g) (total_charset tot) out2 (total_valid tot))
    as H3.
  destruct (compare_token casecmp diag_charset _ _ _ _) as [cs out3].
  simpl in *. rewrite !gint_inc_small by lia.
  split_and!; try lia; intros; lia.
Qed.

Lemma process_lines_inv mode lines :
  ∀ k s, bench_inv mode k s →
         0 ≤ k → k + Z.of_nat (length lines) < 2 ^ 31 →
         bench_inv mode (k + Z.of_nat (length lines))
           (foldl (line_step mode) s lines).
Proof.
  induction lines as [|l lines IH]; intros k s Hinv Hk Hb; simpl.
  - by rewrite Z.add_0_r.
  - rewrite length_cons in Hb.
    replace (k + Z.of_nat (S (length lines)))
      with (k + 1 + Z.of_nat (length lines)) by lia.
    apply IH; [|lia|lia]. apply process_line_inv; [done|lia].
Qed.

Lemma lines_read_nonneg fs : 0 ≤ lines_read time files fs.
Proof.
  induction fs as [|f fs IH]; simpl; [lia|].
  destruct (files f); lia.
Qed.

Lemma process_files_inv mode fs :
  ∀ k s, bench_inv mode k s →
         0 ≤ k → k + lines_read time files fs < 2 ^ 31 →
         bench_inv mode (k + lines_read time files fs)
           (foldl (file_step mode) s fs).
Proof.
  induction fs as [|f fs IH]; intros k s Hinv Hk Hb; simpl in *.
  - by rewrite Z.add_0_r.
  - pose proof (lines_read_nonneg fs) as Hnn.
    unfold rspamd_process_file at 2.
    destruct (files f) as [c|] eqn:Hf.
    + replace (k + (Z.of_nat (length (file_lines c)) + lines_read time files fs))
        with (k + Z.of_nat (length (file_lines c)) + lines_read time files fs)
        by lia.
      apply IH; [|lia|lia].
      pose proof (process_lines_inv mode (file_lines c) k s Hinv Hk) as Hl.
      destruct (read_error c); [|apply Hl; lia].
      destruct Hl as (? & ? & ?); [lia|]. by split_and!.
    + apply IH; [|lia|lia]. destruct Hinv as (? & ? & ?). by split_and!.
Qed.

(** X7. The counters [main] ends with. As long as the files hold fewer
    than 2^31 lines together, the number of parsed lines is the number of
    lines of the files that could be opened; no counter exceeds the number
    of valid lines and that not the number of parsed lines; in the
    comparison mode no attribute is ever counted; the report prints these
    counters and the exit status is 0, whatever file could not be opened
    or read to its end. *)
Theorem bench_main_counters :
  ∀ argv : list string,
    lines_read time files (drop (Z.to_nat (select_mode argv).1) argv) < 2 ^ 31 →
    let r := bench_main time time_zero time_add time_sub parse gmime casecmp
               files argv in
    let tot := r.1.1.1 in
    total_parsed tot
    = lines_read time files (drop (Z.to_nat (select_mode argv).1) argv)
    ∧ counters_consistent tot
    ∧ ((select_mode argv).2 = MODE_COMPARE → total_attrs tot = 0)
    ∧ r.1.2
      = (if negb ((select_mode argv).2 =? MODE_COMPARE) then
           report_single (total_parsed tot) (total_time tot) (total_valid tot)
             (total_type tot) (total_subtype tot) (total_charset tot)
             (total_attrs tot)
         else
           report_compare (total_parsed tot) (total_time tot) (total_valid tot)
             (total_type tot) (total_subtype tot) (total_charset tot))
    ∧ r.2 = 0.
Proof.
  intros argv Hb r tot. subst tot r. unfold bench_main.
  destruct (select_mode argv) as [start mode] eqn:Hsel. simpl in *.
  pose proof (process_files_inv mode (drop (Z.to_nat start) argv) 0
                (mk_totals time_zero 0 0 0 0 0 0, [])) as Hinv.
  destruct Hinv as (Hc & Hp & Ha).
  { unfold bench_inv, counters_consistent. simpl. split_and!; (lia || done). }
  { lia. }
  { lia. }
  rewrite Z.add_0_l in Hp.
  split_and!; try done.
  intros ->. apply Ha; discriminate.
Qed.

End BenchFacts.

Lemma bench_main_counters_witness :
  let r := bench_main Z 0 Z.add Z.sub sample_parse sample_gmime sample_casecmp
             sample_files ["bench"; "missing.txt"; "headers.txt"] in
  let tot := r.1.1.1 in
  total_parsed tot = 3
  ∧ total_valid tot = 2
  ∧ total_time tot = 10
  ∧ r.1.1.2 = [diag_cannot_open "missing.txt"]
  ∧ counters_consistent tot
  ∧ r.2 = 0.
Proof.
  pose proof (bench_main_counters Z 0 Z.add Z.sub sample_parse sample_gmime
                sample_casecmp sample_files
                ["bench"; "missing.txt"; "headers.txt"]) as H.
  destruct H as (Hp & Hc & _ & _ & Hz); [vm_compute; reflexivity|].
  split_and!; try reflexivity; assumption.
Defined.

(* ===================================================================== *)
(** * Part VII: properties of the life of a Lua session                   *)
(* ===================================================================== *)

Import LuaSessionLife.

(** ** Stack steps *)

Lemma set_stack_back w s : set_stack (set_stack w s) (stack (lua w)) = w.
Proof. destruct w as [[st reg nr] a su eu ss fz b lg]. reflexivity. Qed.

Lemma index2value_top l s x :
  stack l = s ++ [x] → index2value l (-1) = Some x.
Proof.
  intros Hs. unfold index2value. simpl. rewrite Hs, length_app. simpl.
  replace (Z.of_nat (length s + 1) + -1) with (Z.of_nat (length s)) by lia.
  rewrite (proj2 (Z.leb_le 0 _)) by lia.
  by rewrite Nat2Z.id, list_lookup_middle.
Qed.

Lemma lua_pop_top w s x :
  stack (lua w) = s ++ [x] → lua_pop 1 w = Ok () (set_stack w s).
Proof.
  intros Hs. unfold lua_pop, bind, get, modify.
  rewrite Hs, length_app. cbn [length].
  replace (1 <=? length s + 1)%nat with true
    by (symmetry; apply Nat.leb_le; lia).
  rewrite !Hs, length_app. cbn [length].
  replace (length s + 1 - 1)%nat with (length s) by lia.
  by rewrite take_app_length.
Qed.

Lemma lua_rawgeti_ok n w :
  lua_rawgeti n w
  = Ok () (set_stack w (stack (lua w) ++ [default LNil (registry (lua w) !! n)])).
Proof. reflexivity. Qed.

Lemma lua_pcall_top lua_call n w s f :
  stack (lua w) = s ++ [f] →
  lua_pcall lua_call n w
  = match lua_call f (set_stack w s) with
    | call_returns rs w' => Ok 0 (set_stack w' (s ++ adjust_results n rs))
    | call_raises e w' => Ok LUA_ERRRUN (set_stack w' (s ++ [e]))
    end.
Proof.
  intros Hs. unfold lua_pcall, bind, get, modify, ret.
  rewrite Hs, reverse_snoc, reverse_involutive.
  by destruct (lua_call f (set_stack w s)).
Qed.


(** ** The callbacks without result *)

Lemma void_callback_steps lua_call error_text msg ref w (k : M unit) :
  (lua_rawgeti ref ;;;
   status <- lua_pcall lua_call 0 ;;
   (if negb (status =? 0) then
      txt <- top_text error_text ;;
      msg_info (msg +:+ txt) ;;;
      lua_pop 1
    else ret ()) ;;;
   k) w
  = match lua_call (default LNil (registry (lua w) !! ref)) w with
    | call_returns rs w' => k (set_stack w' (stack (lua w)))
    | call_raises e w' =>
        k (set_stack (set_log w' (log w' ++ [msg +:+ error_text e]))
             (stack (lua w)))
    end.
Proof.
  unfold bind at 1. rewrite lua_rawgeti_ok.
  unfold bind at 1.
  rewrite (lua_pcall_top lua_call 0 _ (stack (lua w))
             (default LNil (registry (lua w) !! ref))) by reflexivity.
  rewrite set_stack_back.
  destruct (lua_call _ w) as [rs w'|e w'].
  - unfold adjust_results. simpl. rewrite app_nil_r. reflexivity.
  - change (negb (LUA_ERRRUN =? 0)) with true. cbv iota.
    unfold bind at 1. unfold bind at 1.
    unfold top_text at 1, bind at 1, get at 1, ret at 1.
    rewrite (index2value_top _ (stack (lua w)) e) by reflexivity.
    unfold bind at 1. unfold msg_info at 1, modify at 1.
    rewrite (lua_pop_top _ (stack (lua w)) e) by reflexivity.
    reflexivity.
Qed.

Lemma rawset_reads k v (t : gmap Z lua_value) :
  default LNil (rawset k v t !! k) = v.
Proof.
  destruct v; simpl; rewrite ?lookup_delete_eq, ?lookup_insert_eq; reflexivity.
Qed.

Lemma rawset_other k v (t : gmap Z lua_value) j :
  j ≠ k → rawset k v t !! j = t !! j.
Proof.
  intros Hj.
  destruct v; simpl; rewrite ?lookup_delete_ne, ?lookup_insert_ne by done;
    reflexivity.
Qed.

Lemma luaL_unref_released ref w :
  ∃ w', luaL_unref ref w = Ok () w'
        ∧ stack (lua w') = stack (lua w)
        ∧ (0 ≤ ref → put_on_free_list ref (registry (lua w)) (registry (lua w')))
        ∧ (ref < 0 → w' = w)
        ∧ lua_addr w' = lua_addr w
        ∧ session_udata w' = session_udata w
        ∧ event_udata w' = event_udata w
        ∧ sessions w' = sessions w.
Proof.
  unfold luaL_unref. destruct (0 <=? ref) eqn:Hr.
  - eexists. split; [reflexivity|]. simpl. split_and!; try done.
    + intros _. split_and!.
      * apply lookup_insert_eq.
      * intros Hne. rewrite lookup_insert_ne by done. apply rawset_reads.
      * intros k Hk0 Hkr. rewrite lookup_insert_ne by done.
        by apply rawset_other.
    + intros Hneg. apply Z.leb_le in Hr. lia.
  - exists w. split_and!; try done. intros Hp. apply Z.leb_gt in Hr. lia.
Qed.

(** The last step of a callback without result: the reference is
    released in the world the call left. *)
Ltac settle_released Hres :=
  match type of Hres with
  | _ = luaL_unref ?r ?x =>
      let w' := fresh "w'" in
      let Hw' := fresh "Hw'" in
      let Hst := fresh "Hst" in
      let Hreg := fresh "Hreg" in
      let Hneg := fresh "Hneg" in
      destruct (luaL_unref_released r x) as (w' & Hw' & Hst & Hreg & Hneg & _);
      exists w'; rewrite Hres; split_and!;
      [exact Hw'|by rewrite Hst|intros Hp; apply Hreg; lia
      |by intros Hn; rewrite (Hneg Hn)]
  end.

(** X8. The three callbacks without result ([lua_event_fin],
    [lua_session_restore], [lua_session_cleanup]), for a callee that does
    not touch the block of the bindings. Without a callback reference (0)
    nothing happens at all. With one, the referenced value is called once
    and, whether the call returns or raises, the Lua stack is handed back
    as it was found and the reference is released in the registry the
    callee left: a positive reference becomes the head of the free list,
    its slot reads as the former head and the other keys keep their
    values; a negative one leaves the registry alone. *)
Theorem void_callbacks_release_reference :
  ∀ (lua_call : lua_value → world → call_outcome)
    (error_text : lua_value → string) (ud : LuaSession.pointer) (w : world),
    (∀ e, event_udata w !! ud = Some e →
          keeps_event_udata lua_call ud →
          (cbref e = 0 → lua_event_fin_body lua_call error_text ud w = Ok () w)
          ∧ (cbref e ≠ 0 →
             match lua_call (default LNil (registry (lua w) !! cbref e)) w with
             | call_returns _ w1 | call_raises _ w1 =>
                 ∃ w', lua_event_fin_body lua_call error_text ud w = Ok () w'
                       ∧ stack (lua w') = stack (lua w)
                       ∧ (0 < cbref e →
                          put_on_free_list (cbref e) (registry (lua w1))
                            (registry (lua w')))
                       ∧ (cbref e < 0 → registry (lua w') = registry (lua w1))
             end))
    ∧ (∀ c, session_udata w !! ud = Some c →
            keeps_session_udata lua_call ud →
            (cbref_restore c = 0 →
             lua_session_restore lua_call error_text ud w = Ok () w)
            ∧ (cbref_restore c ≠ 0 →
               match lua_call (default LNil (registry (lua w) !! cbref_restore c)) w with
               | call_returns _ w1 | call_raises _ w1 =>
                   ∃ w', lua_session_restore lua_call error_text ud w = Ok () w'
                         ∧ stack (lua w') = stack (lua w)
                         ∧ (0 < cbref_restore c →
                            put_on_free_list (cbref_restore c) (registry (lua w1))
                              (registry (lua w')))
                         ∧ (cbref_restore c < 0 →
                            registry (lua w') = registry (lua w1))
               end)
            ∧ (cbref_cleanup c = 0 →
               lua_session_cleanup lua_call error_text ud w = Ok () w)
            ∧ (cbref_cleanup c ≠ 0 →
               match lua_call (default LNil (registry (lua w) !! cbref_cleanup c)) w with
               | call_returns _ w1 | call_raises _ w1 =>
                   ∃ w', lua_session_cleanup lua_call error_text ud w = Ok () w'
                         ∧ stack (lua w') = stack (lua w)
                         ∧ (0 < cbref_cleanup c →
                            put_on_free_list (cbref_cleanup c) (registry (lua w1))
                              (registry (lua w')))
                         ∧ (cbref_cleanup c < 0 →
                            registry (lua w') = registry (lua w1))
               end)).
Proof.
  intros lua_call error_text ud w. split.
  - intros e He Hkeep. split.
    + intros H0. unfold lua_event_fin_body, bind at 1, event_cbdata_of, bind, get.
      rewrite He. simpl. by rewrite H0.
    + intros Hne.
      remember (lua_event_fin_body lua_call error_text ud w) as res eqn:Hres.
      unfold lua_event_fin_body in Hres.
      unfold bind at 1 in Hres.
      unfold event_cbdata_of at 1, bind at 1, get at 1 in Hres.
      rewrite He in Hres. cbv beta iota in Hres. unfold ret at 1 in Hres.
      rewrite (proj2 (negb_true_iff _) (proj2 (Z.eqb_neq _ _) Hne)) in Hres.
      rewrite void_callback_steps in Hres.
      pose proof (Hkeep (default LNil (registry (lua w) !! cbref e)) w) as Hk.
      destruct (lua_call _ w) as [rs w1|err w1];
        (unfold bind at 1, event_cbdata_of, bind, get in Hres; simpl in Hres;
         rewrite Hk, He in Hres; simpl in Hres; settle_released Hres).
  - intros c Hc Hkeep. split_and!.
    + intros H0. unfold lua_session_restore, bind at 1, cbdata_of, bind, get.
      rewrite Hc. simpl. by rewrite H0.
    + intros Hne.
      remember (lua_session_restore lua_call error_text ud w) as res eqn:Hres.
      unfold lua_session_restore in Hres.
      unfold bind at 1 in Hres.
      unfold cbdata_of at 1, bind at 1, get at 1 in Hres.
      rewrite Hc in Hres. cbv beta iota in Hres. unfold ret at 1 in Hres.
      rewrite (proj2 (negb_true_iff _) (proj2 (Z.eqb_neq _ _) Hne)) in Hres.
      rewrite void_callback_steps in Hres.
      pose proof (Hkeep (default LNil (registry (lua w) !! cbref_restore c)) w)
        as Hk.
      destruct (lua_call _ w) as [rs w1|err w1];
        (unfold bind at 1, cbdata_of, bind, get in Hres; simpl in Hres;
         rewrite Hk, Hc in Hres; simpl in Hres; settle_released Hres).
    + intros H0. unfold lua_session_cleanup, bind at 1, cbdata_of, bind, get.
      rewrite Hc. simpl. by rewrite H0.
    + intros Hne.
      remember (lua_session_cleanup lua_call error_text ud w) as res eqn:Hres.
      unfold lua_session_cleanup in Hres.
      unfold bind at 1 in Hres.
      unfold cbdata_of at 1, bind at 1, get at 1 in Hres.
      rewrite Hc in Hres. cbv beta iota in Hres. unfold ret at 1 in Hres.
      rewrite (proj2 (negb_true_iff _) (proj2 (Z.eqb_neq _ _) Hne)) in Hres.
      rewrite void_callback_steps in Hres.
      pose proof (Hkeep (default LNil (registry (lua w) !! cbref_cleanup c)) w)
        as Hk.
      destruct (lua_call _ w) as [rs w1|err w1];
        (unfold bind at 1, cbdata_of, bind, get in Hres; simpl in Hres;
         rewrite Hk, Hc in Hres; simpl in Hres; settle_released Hres).
Qed.

(** ** The session finalizer *)

Lemma adjust_results_one rs : adjust_results 1 rs = [default LNil (head rs)].
Proof.
  unfold adjust_results. by destruct rs as [|r [|r' rs]].
Qed.

Lemma finalizer_steps lua_call error_text ref w (k : bool → M bool) :
  (lua_rawgeti ref ;;;
   status <- lua_pcall lua_call 1 ;;
   res <- (if negb (status =? 0) then
             txt <- top_text error_text ;;
             msg_info ("call to session finalizer failed: " +:+ txt) ;;;
             lua_pop 1 ;;;
             ret false
           else
             b <- lua_toboolean (-1) ;;
             lua_pop 1 ;;;
             ret b) ;;
   k res) w
  = match lua_call (default LNil (registry (lua w) !! ref)) w with
    | call_returns rs w' =>
        k (truthy (default LNil (head rs))) (set_stack w' (stack (lua w)))
    | call_raises e w' =>
        k false
          (set_stack
             (set_log w' (log w' ++ ["call to session finalizer failed: "
                                     +:+ error_text e]))
             (stack (lua w)))
    end.
Proof.
  unfold bind at 1. rewrite lua_rawgeti_ok.
  unfold bind at 1.
  rewrite (lua_pcall_top lua_call 1 _ (stack (lua w))
             (default LNil (registry (lua w) !! ref))) by reflexivity.
  rewrite set_stack_back.
  destruct (lua_call _ w) as [rs w'|e w'].
  - rewrite adjust_results_one.
    change (negb (0 =? 0)) with false. cbv iota.
    unfold bind at 1. unfold bind at 1.
    unfold lua_toboolean at 1, bind at 1, get at 1, ret at 1.
    rewrite (index2value_top _ (stack (lua w)) (default LNil (head rs)))
      by reflexivity.
    unfold bind at 1.
    rewrite (lua_pop_top _ (stack (lua w)) (default LNil (head rs)))
      by reflexivity.
    reflexivity.
  - change (negb (LUA_ERRRUN =? 0)) with true. cbv iota.
    unfold bind at 1. unfold bind at 1.
    unfold top_text at 1, bind at 1, get at 1, ret at 1.
    rewrite (index2value_top _ (stack (lua w)) e) by reflexivity.
    unfold bind at 1. unfold msg_info at 1, modify at 1.
    unfold bind at 1.
    rewrite (lua_pop_top _ (stack (lua w)) e) by reflexivity.
    reflexivity.
Qed.

Lemma session_finalizer_run lua_call error_text ud w c :
  session_udata w !! ud = Some c →
  keeps_session_udata lua_call ud →
  match lua_call (default LNil (registry (lua w) !! cbref_fin c)) w with
  | call_returns rs wc =>
      ∃ w',
        lua_session_finalizer lua_call error_text ud w
        = Ok (truthy (default LNil (head rs))) w'
        ∧ stack (lua w') = stack (lua w)
        ∧ (0 ≤ cbref_fin c →
           put_on_free_list (cbref_fin c) (registry (lua wc)) (registry (lua w')))
        ∧ session_udata w' !! ud = Some c
  | call_raises _ wc =>
      ∃ w',
        lua_session_finalizer lua_call error_text ud w = Ok false w'
        ∧ stack (lua w') = stack (lua w)
        ∧ (0 ≤ cbref_fin c →
           put_on_free_list (cbref_fin c) (registry (lua wc)) (registry (lua w')))
        ∧ session_udata w' !! ud = Some c
  end.
Proof.
  intros Hc Hkeep.
  remember (lua_session_finalizer lua_call error_text ud w) as res eqn:Hres.
  unfold lua_session_finalizer in Hres.
  unfold bind at 1 in Hres. unfold cbdata_of at 1, bind at 1, get at 1 in Hres.
  rewrite Hc in Hres. cbv beta iota in Hres. unfold ret at 1 in Hres.
  rewrite finalizer_steps in Hres.
  pose proof (Hkeep (default LNil (registry (lua w) !! cbref_fin c)) w) as Hk.
  destruct (lua_call _ w) as [rs w1|err w1];
    (unfold bind at 1, cbdata_of, bind, get in Hres; simpl in Hres;
     rewrite Hk, Hc in Hres; simpl in Hres;
     match type of Hres with
     | _ = match luaL_unref ?r ?x with _ => _ end =>
         destruct (luaL_unref_released r x)
           as (w' & Hw' & Hst & Hreg & _ & _ & Hsu & _)
     end;
     exists w'; rewrite Hres, Hw'; unfold ret;
     split_and!; [reflexivity|by rewrite Hst|exact Hreg|
                  by rewrite Hsu; simpl; rewrite Hk]).
Qed.

(** What the slot of a released reference reads as: the former head of the
    free list or, for the reference 0, the number 0. *)
Lemma released_slot_reads ref (before after : gmap Z lua_value) :
  put_on_free_list ref before after →
  default LNil (after !! ref)
  = if bool_decide (ref = FREELIST_REF) then LNumber ref
    else default LNil (before !! FREELIST_REF).
Proof.
  intros (Hhead & Hslot & _). case_bool_decide as Hr.
  - rewrite Hr in *. by rewrite Hhead.
  - by apply Hslot.
Qed.

(** X9. The session finalizer, for a callee that does not touch the block
    of the bindings and leaves the free list of the registry with nil or a
    number at its head. It always returns: with the truth value of the
    first result of the Lua finalizer (false when there is none), or with
    false when the call raised. In both cases the Lua stack is as before
    and the reference to the Lua finalizer is released: it heads the free
    list and its slot holds no function any more. So when the session
    asks again, nil or a number is called, which raises, and the answer is
    false whatever the first answer was. *)
Theorem session_finalizer_outcome :
  ∀ (lua_call : lua_value → world → call_outcome)
    (error_text : lua_value → string) (ud : LuaSession.pointer) (w : world)
    (c : lua_session_udata),
    session_udata w !! ud = Some c →
    keeps_session_udata lua_call ud →
    0 ≤ cbref_fin c →
    (∀ w0, ∃ e w1, lua_call LNil w0 = call_raises e w1) →
    (∀ n w0, ∃ e w1, lua_call (LNumber n) w0 = call_raises e w1) →
    match lua_call (default LNil (registry (lua w) !! cbref_fin c)) w with
    | call_returns _ wc | call_raises _ wc => free_list_head_ok wc
    end →
    ∃ w1 w2,
      lua_session_finalizer lua_call error_text ud w
      = Ok (match lua_call (default LNil (registry (lua w) !! cbref_fin c)) w with
            | call_returns rs _ => truthy (default LNil (head rs))
            | call_raises _ _ => false
            end) w1
      ∧ stack (lua w1) = stack (lua w)
      ∧ registry (lua w1) !! FREELIST_REF = Some (LNumber (cbref_fin c))
      ∧ (∀ f, registry (lua w1) !! cbref_fin c ≠ Some (LFunction f))
      ∧ lua_session_finalizer lua_call error_text ud w1 = Ok false w2
      ∧ stack (lua w2) = stack (lua w).
Proof.
  intros lua_call error_text ud w c Hc Hkeep Hpos Hnil Hnum Hhead.
  pose proof (session_finalizer_run lua_call error_text ud w c Hc Hkeep) as Hrun.
  assert (∃ wc w1 r,
             lua_session_finalizer lua_call error_text ud w = Ok r w1
             ∧ r = match lua_call (default LNil (registry (lua w) !! cbref_fin c)) w with
                   | call_returns rs _ => truthy (default LNil (head rs))
                   | call_raises _ _ => false
                   end
             ∧ free_list_head_ok wc
             ∧ stack (lua w1) = stack (lua w)
             ∧ put_on_free_list (cbref_fin c) (registry (lua wc)) (registry (lua w1))
             ∧ session_udata w1 !! ud = Some c)
    as (wc & w1 & r & Hrun1 & Hr & Hok & Hst1 & Hfree & Hc1).
  { destruct (lua_call _ w) as [rs wc|err wc];
      destruct Hrun as (w1 & H1 & H2 & H3 & H4);
      exists wc, w1; eexists; split_and!; eauto. }
  assert (∃ e w', lua_call (default LNil (registry (lua w1) !! cbref_fin c)) w1
                  = call_raises e w')
    as (e & w' & Hraises).
  { rewrite (released_slot_reads _ _ _ Hfree). case_bool_decide; [apply Hnum|].
    unfold free_list_head_ok in Hok.
    destruct (registry (lua wc) !! FREELIST_REF) as [[]|]; simpl;
      try done; auto. }
  pose proof (session_finalizer_run lua_call error_text ud w1 c Hc1 Hkeep) as Hrun2.
  rewrite Hraises in Hrun2. destruct Hrun2 as (w2 & Hrun2 & Hst2 & _).
  exists w1, w2. rewrite Hrun1, Hr. split_and!; try done.
  - apply Hfree.
  - intros f Hf. pose proof (released_slot_reads _ _ _ Hfree) as Hslot.
    rewrite Hf in Hslot. simpl in Hslot.
    case_bool_decide; [done|].
    unfold free_list_head_ok in Hok.
    destruct (registry (lua wc) !! FREELIST_REF) as [[]|]; simpl in *; done.
  - by rewrite Hst2.
Qed.

(** ** The methods on what is not a live session *)

(** X10. The four methods of a session ([register_async_event],
    [remove_normal_event], [check_session_pending], [delete]) on a first
    argument that is not a session userdata: each raises the argument
    error ['session' expected] and has changed nothing. *)
Theorem methods_reject_non_session :
  ∀ (check : lua_State → Z → string → option udata)
    (destroy : LuaSession.pointer → M unit) (w : world),
    check (lua w) 1 "rspamd{session}" = None →
    lua_session_register_async_event check w = LuaError "'session' expected" w
    ∧ lua_session_remove_normal_event check w = LuaError "'session' expected" w
    ∧ lua_session_check_session_pending check w = LuaError "'session' expected" w
    ∧ lua_session_delete check destroy w = LuaError "'session' expected" w.
Proof.
  intros check destroy w Hu.
  pose proof (lua_check_session_none check w Hu) as Hn.
  unfold lua_session_register_async_event, lua_session_remove_normal_event,
    lua_session_check_session_pending, lua_session_delete.
  split_and!; unfold bind at 1; try unfold bind at 1; by rewrite Hn.
Qed.

Lemma methods_reject_non_session_witness :
  lua_session_register_async_event check_udata_by_class
    (world_with_stack [LNumber 1; LFunction 8%N])
  = LuaError "'session' expected" (world_with_stack [LNumber 1; LFunction 8%N])
  ∧ lua_session_remove_normal_event check_udata_by_class
      (world_with_stack [LNumber 1; LFunction 8%N])
    = LuaError "'session' expected" (world_with_stack [LNumber 1; LFunction 8%N])
  ∧ lua_session_check_session_pending check_udata_by_class
      (world_with_stack [LNumber 1; LFunction 8%N])
    = LuaError "'session' expected" (world_with_stack [LNumber 1; LFunction 8%N])
  ∧ lua_session_delete check_udata_by_class sample_destroy
      (world_with_stack [LNumber 1; LFunction 8%N])
    = LuaError "'session' expected" (world_with_stack [LNumber 1; LFunction 8%N]).
Proof.
  apply (methods_reject_non_session check_udata_by_class sample_destroy
           (world_with_stack [LNumber 1; LFunction 8%N])).
  reflexivity.
Defined.

(** X11. The four methods on a session userdata whose session pointer is
    null: each pushes nil and returns it as its one result; no session and
    no event is touched, and [delete] does not call the destruction. *)
Theorem methods_on_dead_session :
  ∀ (check : lua_State → Z → string → option udata)
    (destroy : LuaSession.pointer → M unit) (w : world) (u : udata)
    (cbd : LuaSession.pointer) (c : lua_session_udata),
    check (lua w) 1 "rspamd{session}" = Some u →
    ud_content u = Some cbd →
    session_udata w !! cbd = Some c →
    session c = NULL →
    let w' := set_stack w (stack (lua w) ++ [LNil]) in
    lua_session_register_async_event check w = Ok 1 w'
    ∧ lua_session_remove_normal_event check w = Ok 1 w'
    ∧ lua_session_check_session_pending check w = Ok 1 w'
    ∧ lua_session_delete check destroy w = Ok 1 w'
    ∧ returned_values 1 w' = [LNil]
    ∧ sessions w' = sessions w.
Proof.
  intros check destroy w u cbd c Hu Hc Hcbd Hdead w'. subst w'.
  pose proof (lua_check_session_ok check w u cbd Hu Hc) as Hs.
  pose proof (session_of_ok w cbd c Hcbd) as Hso.
  split_and!.
  - by apply (register_dead_session check w u cbd c).
  - unfold lua_session_remove_normal_event.
    rewrite (bind_ok _ _ _ _ _ Hs), (bind_ok _ _ _ _ _ Hso). by rewrite Hdead.
  - unfold lua_session_check_session_pending.
    rewrite (bind_ok _ _ _ _ _ Hs), (bind_ok _ _ _ _ _ Hso). by rewrite Hdead.
  - unfold lua_session_delete.
    rewrite (bind_ok _ _ _ _ _ Hs), (bind_ok _ _ _ _ _ Hso). by rewrite Hdead.
  - apply returned_values_top.
  - done.
Qed.

Lemma methods_on_dead_session_witness :
  let w := set_session_udata (sample_world [])
             {[ 10%N := mk_lua_session_udata 1%N 1 0 0 30%N NULL ]} 100%N in
  let w' := set_stack w (stack (lua w) ++ [LNil]) in
  lua_session_register_async_event check_udata_by_class w = Ok 1 w'
  ∧ lua_session_remove_normal_event check_udata_by_class w = Ok 1 w'
  ∧ lua_session_check_session_pending check_udata_by_class w = Ok 1 w'
  ∧ lua_session_delete check_udata_by_class sample_destroy w = Ok 1 w'
  ∧ returned_values 1 w' = [LNil]
  ∧ sessions w' = sessions w.
Proof.
  apply (methods_on_dead_session check_udata_by_class sample_destroy
           (set_session_udata (sample_world [])
              {[ 10%N := mk_lua_session_udata 1%N 1 0 0 30%N NULL ]} 100%N)
           (mk_udata (Some "rspamd{session}") (Some 10%N)) 10%N
           (mk_lua_session_udata 1%N 1 0 0 30%N NULL)); reflexivity.
Defined.

Lemma returned_values_last w s v :
  stack (lua w) = s ++ [v] → returned_values 1 w = [v].
Proof.
  intros Hs. unfold returned_values. rewrite Hs, length_app. simpl.
  replace (length s + 1 - Z.to_nat 1)%nat with (length s) by lia.
  by rewrite drop_app_length.
Qed.

(** X12. Returning one value without pushing one. On a live session
    [check_session_pending] hands back the last argument of the call: for
    [session:check_session_pending ()] that is the session userdata
    itself, a true value, whether or not anything is pending. In the same
    way [remove_normal_event] on an event userdata that holds a null
    pointer removes nothing and hands back its last argument. *)
Theorem result_is_last_argument :
  ∀ (check : lua_State → Z → string → option udata) (w : world) (u : udata)
    (cbd : LuaSession.pointer) (c : lua_session_udata)
    (s : list lua_value) (v : lua_value),
    check (lua w) 1 "rspamd{session}" = Some u →
    ud_content u = Some cbd →
    session_udata w !! cbd = Some c →
    session c ≠ NULL →
    stack (lua w) = s ++ [v] →
    (lua_session_check_session_pending check w = Ok 1 w
     ∧ returned_values 1 w = [v])
    ∧ (∀ e, check (lua w) 2 "rspamd{event}" = Some e →
            ud_content e = Some NULL →
            lua_session_remove_normal_event check w = Ok 1 w).
Proof.
  intros check w u cbd c s v Hu Hc Hcbd Hlive Hs. split_and!.
  - by apply (check_session_pending_live check w u cbd c).
  - by apply (returned_values_last w s v).
  - intros e He Hn. unfold lua_session_remove_normal_event.
    rewrite (bind_ok _ _ _ _ _ (lua_check_session_ok check w u cbd Hu Hc)).
    rewrite (bind_ok _ _ _ _ _ (session_of_ok w cbd c Hcbd)).
    rewrite (live_session_test _ Hlive).
    unfold bind at 1. unfold lua_check_event, bind, get. rewrite He.
    rewrite bool_decide_eq_true_2 by eauto. simpl. by rewrite Hn.
Qed.

Lemma result_is_last_argument_witness :
  let ud := LUserdata (mk_udata (Some "rspamd{session}") (Some 10%N)) in
  (lua_session_check_session_pending check_udata_by_class (sample_world [])
   = Ok 1 (sample_world [])
   ∧ returned_values 1 (sample_world []) = [ud])
  ∧ (lua_session_remove_normal_event check_udata_by_class
       (sample_world [LUserdata (mk_udata (Some "rspamd{event}") (Some NULL))])
     = Ok 1 (sample_world [LUserdata (mk_udata (Some "rspamd{event}") (Some NULL))])).
Proof.
  split.
  - apply (proj1 (result_is_last_argument check_udata_by_class (sample_world [])
                    (mk_udata (Some "rspamd{session}") (Some 10%N)) 10%N
                    sample_session_udata []
                    (LUserdata (mk_udata (Some "rspamd{session}") (Some 10%N)))
                    eq_refl eq_refl eq_refl
                    ltac:(discriminate) eq_refl)).
  - apply (proj2 (result_is_last_argument check_udata_by_class
                    (sample_world [LUserdata (mk_udata (Some "rspamd{event}") (Some NULL))])
                    (mk_udata (Some "rspamd{session}") (Some 10%N)) 10%N
                    sample_session_udata
                    [LUserdata (mk_udata (Some "rspamd{session}") (Some 10%N))]
                    (LUserdata (mk_udata (Some "rspamd{event}") (Some NULL)))
                    eq_refl eq_refl eq_refl
                    ltac:(discriminate) eq_refl)
             (mk_udata (Some "rspamd{event}") (Some NULL))); reflexivity.
Defined.

Lemma sample_call_keeps_session_udata ud : keeps_session_udata sample_call ud.
Proof. intros v w0. by destruct v. Qed.

Lemma sample_call_keeps_event_udata ud : keeps_event_udata sample_call ud.
Proof. intros v w0. by destruct v. Qed.

Lemma void_callbacks_release_reference_witness :
  (∃ w', lua_event_fin_body sample_call sample_error_text 101%N callbacks_world
         = Ok () w'
         ∧ stack (lua w') = [LNumber 5]
         ∧ (0 < 2 → put_on_free_list 2 (registry (lua callbacks_world))
                      (registry (lua w')))
         ∧ (2 < 0 → registry (lua w') = registry (lua callbacks_world)))
  ∧ (∃ w', lua_session_restore sample_call sample_error_text 10%N callbacks_world
           = Ok () w'
           ∧ stack (lua w') = [LNumber 5]
           ∧ (0 < 2 → put_on_free_list 2 (registry (lua callbacks_world))
                        (registry (lua w')))
           ∧ (2 < 0 → registry (lua w') = registry (lua callbacks_world)))
  ∧ lua_session_cleanup sample_call sample_error_text 10%N callbacks_world
    = Ok () callbacks_world.
Proof.
  split; [|split].
  - apply (proj2 (proj1 (void_callbacks_release_reference sample_call
                           sample_error_text 101%N callbacks_world)
                    (mk_lua_event_udata 1%N 2 20%N) eq_refl
                    (sample_call_keeps_event_udata 101%N))).
    discriminate.
  - apply (proj1 (proj2 (proj2 (void_callbacks_release_reference sample_call
                           sample_error_text 10%N callbacks_world)
                    (mk_lua_session_udata 1%N 1 2 0 30%N 20%N) eq_refl
                    (sample_call_keeps_session_udata 10%N)))).
    discriminate.
  - apply (proj1 (proj2 (proj2 (proj2 (void_callbacks_release_reference
                           sample_call sample_error_text 10%N callbacks_world)
                    (mk_lua_session_udata 1%N 1 2 0 30%N 20%N) eq_refl
                    (sample_call_keeps_session_udata 10%N))))).
    reflexivity.
Defined.

Lemma session_finalizer_outcome_witness :
  ∃ w1 w2,
    lua_session_finalizer sample_call sample_error_text 10%N restored_world
    = Ok true w1
    ∧ stack (lua w1) = [LNumber 5]
    ∧ registry (lua w1) !! FREELIST_REF = Some (LNumber 1)
    ∧ (∀ f, registry (lua w1) !! 1 ≠ Some (LFunction f))
    ∧ lua_session_finalizer sample_call sample_error_text 10%N w1 = Ok false w2
    ∧ stack (lua w2) = [LNumber 5].
Proof.
  apply (session_finalizer_outcome sample_call sample_error_text 10%N
           restored_world (mk_lua_session_udata 1%N 1 2 0 30%N 20%N)
           eq_refl (sample_call_keeps_session_udata 10%N)).
  - simpl. lia.
  - intros w0. by exists (LString "attempt to call a nil value"), w0.
  - intros n w0. by exists (LString "attempt to call a nil value"), w0.
  - vm_compute. exact I.
Defined.

(** ** Creating a session *)

Ltac run_create :=
  unfold lua_session_create;
  unfold lua_gettop, lua_isfunction, lua_pushvalue, luaL_ref,
    assign_session_udata, rspamd_mempool_alloc0_session_udata,
    rspamd_session_create, lua_newuserdata, rspamd_lua_setclass, store_udata,
    update_udata, lua_pushnil, lua_push, msg_err;
  unfold bind, get, ret, modify.

Ltac settle_maps :=
  repeat (progress (rewrite ?insert_insert_eq, ?lookup_insert_eq; simpl)).

Lemma session_create_run mp_check w a f rest mp :
  stack (lua w) = a :: LFunction f :: rest →
  (length rest ≤ 2)%nat →
  mp_check 1 w = Ok mp w →
  mp ≠ NULL →
  ∃ w',
    lua_session_create mp_check w = Ok 1 w'
    ∧ stack (lua w')
      = stack (lua w)
        ++ [LUserdata (mk_udata (Some "rspamd{session}") (Some (brk w + 1)%N))]
    ∧ session_udata w' !! (brk w + 1)%N
      = Some (mk_lua_session_udata (lua_addr w) (next_ref (lua w))
                (if function_at (lua w) 3 then next_ref (lua w) + 1 else 0)
                (if function_at (lua w) 4
                 then (if function_at (lua w) 3 then next_ref (lua w) + 1 + 1
                       else next_ref (lua w) + 1)
                 else 0)
                mp (brk w + 1 + 1)%N)
    ∧ sessions w' !! (brk w + 1 + 1)%N = Some []
    ∧ registry (lua w') !! next_ref (lua w) = Some (LFunction f)
    ∧ (function_at (lua w) 3 = true →
       registry (lua w') !! (next_ref (lua w) + 1) = index2value (lua w) 3)
    ∧ (function_at (lua w) 4 = true →
       registry (lua w')
       !! (if function_at (lua w) 3 then next_ref (lua w) + 1 + 1
           else next_ref (lua w) + 1)
       = index2value (lua w) 4)
    ∧ log w' = log w
    ∧ event_udata w' = event_udata w.
Proof.
  intros Hs Hlen Hmp Hnn.
  destruct w as [[st reg nr] la su eu ss fz b lg]. simpl in Hs. subst st.
  run_create.
  destruct rest as [|c [|d [|? ?]]]; simpl in Hlen; try lia.
  - simpl. rewrite Hmp. simpl. rewrite (proj2 (N.eqb_neq _ _) Hnn). simpl.
    settle_maps. eexists. split; [reflexivity|]. simpl.
    split_and!; try done; by simplify_map_eq.
  - simpl. rewrite Hmp. simpl. rewrite (proj2 (N.eqb_neq _ _) Hnn). simpl.
    settle_maps.
    destruct c; simpl; settle_maps;
      (eexists; split; [reflexivity|]; simpl;
       unfold function_at; simpl;
       split_and!; try done;
       try (intros _); rewrite ?lookup_insert_eq;
       try (rewrite lookup_insert_ne by lia; rewrite ?lookup_insert_eq);
       done).
  - simpl. rewrite Hmp. simpl. rewrite (proj2 (N.eqb_neq _ _) Hnn). simpl.
    settle_maps.
    destruct c; simpl; settle_maps;
      destruct d; simpl; settle_maps;
      (eexists; split; [reflexivity|]; simpl;
       unfold function_at; simpl;
       split_and!; try done;
       try (intros _); rewrite ?lookup_insert_eq;
       try (rewrite lookup_insert_ne by lia; rewrite ?lookup_insert_eq);
       try (rewrite lookup_insert_ne by lia; rewrite ?lookup_insert_eq);
       done).
Qed.



Lemma create_arity_bad w :
  (length (stack (lua w)) < 2 ∨ 4 < length (stack (lua w)))%nat →
  (Z.of_nat (length (stack (lua w))) <? 2)
  || (4 <? Z.of_nat (length (stack (lua w)))) = true.
Proof.
  intros H. apply orb_true_iff.
  destruct H; [left; apply Z.ltb_lt|right; apply Z.ltb_lt]; lia.
Qed.

Lemma create_arity_good w :
  (2 ≤ length (stack (lua w)) ≤ 4)%nat →
  (Z.of_nat (length (stack (lua w))) <? 2)
  || (4 <? Z.of_nat (length (stack (lua w)))) = false.
Proof. intros H. apply orb_false_iff. split; apply Z.ltb_ge; lia. Qed.

(** X14. What [lua_session_create] refuses. With fewer than two or more
    than four arguments, with a pool helper that answers no pool, or with
    something else than a function as finalizer, it logs the reason,
    pushes nil and returns it; no block, no registry entry and no session
    is made. When the pool helper raises, so does the creation. *)
Theorem session_create_rejects :
  ∀ (mp_check : Z → M LuaSession.pointer) (w : world),
    let refused (reason : string) :=
      Ok 1 (set_stack (set_log w (log w ++ [reason])) (stack (lua w) ++ [LNil])) in
    ((length (stack (lua w)) < 2 ∨ 4 < length (stack (lua w)))%nat →
     lua_session_create mp_check w
     = refused "invalid arguments number to rspamd_session.create")
    ∧ ((2 ≤ length (stack (lua w)) ≤ 4)%nat →
       mp_check 1 w = Ok NULL w →
       lua_session_create mp_check w
       = refused "invalid mempool argument to rspamd_session.create")
    ∧ (∀ mp, (2 ≤ length (stack (lua w)) ≤ 4)%nat →
             mp_check 1 w = Ok mp w →
             mp ≠ NULL →
             function_at (lua w) 2 = false →
             lua_session_create mp_check w
             = refused "invalid finalizer argument to rspamd_session.create")
    ∧ (∀ msg w1, (2 ≤ length (stack (lua w)) ≤ 4)%nat →
                 mp_check 1 w = LuaError msg w1 →
                 lua_session_create mp_check w = LuaError msg w1).
Proof.
  intros mp_check w refused. subst refused.
  assert (Htop : lua_gettop w = Ok (Z.of_nat (length (stack (lua w)))) w)
    by reflexivity.
  unfold lua_session_create. rewrite (bind_ok _ _ _ _ _ Htop).
  split_and!.
  - intros Hn. by rewrite (create_arity_bad w Hn).
  - intros Hn Hmp. rewrite (create_arity_good w Hn).
    rewrite (bind_ok _ _ _ _ _ Hmp). reflexivity.
  - intros mp Hn Hmp Hnn Hf. rewrite (create_arity_good w Hn).
    rewrite (bind_ok _ _ _ _ _ Hmp). rewrite (proj2 (N.eqb_neq _ _) Hnn).
    assert (Hisf : lua_isfunction 2 w = Ok false w).
    { unfold lua_isfunction, bind, get, ret. unfold function_at in Hf.
      by destruct (index2value (lua w) 2) as [[| | | | |]|]. }
    rewrite (bind_ok _ _ _ _ _ Hisf). reflexivity.
  - intros msg w1 Hn Hmp. rewrite (create_arity_good w Hn).
    unfold bind at 1. by rewrite Hmp.
Qed.

Lemma session_create_rejects_witness :
  lua_session_create sample_check_mempool (world_with_stack [LNumber 1])
  = Ok 1 (set_stack
            (set_log (world_with_stack [LNumber 1])
               ["invalid arguments number to rspamd_session.create"])
            [LNumber 1; LNil])
  ∧ lua_session_create sample_check_mempool
      (world_with_stack [LNumber 1; LString "fin"])
    = Ok 1 (set_stack
              (set_log (world_with_stack [LNumber 1; LString "fin"])
                 ["invalid finalizer argument to rspamd_session.create"])
              [LNumber 1; LString "fin"; LNil]).
Proof.
  split.
  - apply (proj1 (session_create_rejects sample_check_mempool
                    (world_with_stack [LNumber 1]))).
    simpl. lia.
  - apply (proj1 (proj2 (proj2 (session_create_rejects sample_check_mempool
                    (world_with_stack [LNumber 1; LString "fin"]))))
             30%N).
    + simpl. lia.
    + reflexivity.
    + discriminate.
    + reflexivity.
Defined.

(** X15. A created session in use. The userdata [lua_session_create]
    returns is accepted by [lua_check_session] as first argument of a later
    call and leads to the block of the session, which is live:
    [check_session_pending] on it returns without an error. And calling
    [register_async_event] on it with a function leaves the new session
    without any outstanding event and returns nil. *)
Theorem created_session_in_use :
  ∀ (mp_check : Z → M LuaSession.pointer) (w : world) (a : lua_value) (f : N)
    (rest : list lua_value) (mp : LuaSession.pointer),
    stack (lua w) = a :: LFunction f :: rest →
    (length rest ≤ 2)%nat →
    mp_check 1 w = Ok mp w →
    mp ≠ NULL →
    ∃ w' udv,
      lua_session_create mp_check w = Ok 1 w'
      ∧ returned_values 1 w' = [udv]
      ∧ (∀ args,
           lua_check_session check_udata_by_class (set_stack w' (udv :: args))
           = Ok (brk w + 1)%N (set_stack w' (udv :: args)))
      ∧ lua_session_check_session_pending check_udata_by_class
          (set_stack w' [udv])
        = Ok 1 (set_stack w' [udv])
      ∧ (∀ g, ∃ w'',
           lua_session_register_async_event check_udata_by_class
             (set_stack w' [udv; LFunction g]) = Ok 1 w''
           ∧ returned_values 1 w'' = [LNil]
           ∧ sessions w'' !! (brk w + 1 + 1)%N = Some []).
Proof.
  intros mp_check w a f rest mp Hs Hlen Hmp Hnn.
  destruct (session_create_run mp_check w a f rest mp Hs Hlen Hmp Hnn)
    as (w' & Hrun & Hst & Hsu & Hss & _).
  set (u := mk_udata (Some "rspamd{session}") (Some (brk w + 1)%N)).
  set (c := mk_lua_session_udata _ _ _ _ _ _) in Hsu.
  assert (Hcheck : ∀ args,
             check_udata_by_class (lua (set_stack w' (LUserdata u :: args))) 1
               "rspamd{session}" = Some u).
  { intros args. reflexivity. }
  assert (Hlive : session c ≠ NULL) by (unfold c, NULL; simpl; lia).
  exists w', (LUserdata u). split_and!.
  - done.
  - by apply (returned_values_last w' (stack (lua w))).
  - intros args.
    by apply (lua_check_session_ok check_udata_by_class _ u).
  - by apply (check_session_pending_live check_udata_by_class _ u (brk w + 1)%N c).
  - intros g.
    set (W := set_stack w' [LUserdata u; LFunction g]).
    exists (set_stack
              (set_log W (log W ++ ["invalid finalizer argument to register async event"]))
              (stack (lua W) ++ [LNil])).
    split_and!.
    + by apply (register_on_userdata check_udata_by_class W u (brk w + 1)%N c).
    + apply (returned_values_top
               (set_log W (log W ++ ["invalid finalizer argument to register async event"]))).
    + exact Hss.
Qed.

Lemma created_session_in_use_witness :
  ∃ w' udv,
    lua_session_create sample_check_mempool
      (world_with_stack [LUserdata (mk_udata (Some "rspamd{mempool}") (Some 30%N));
                         LFunction 8%N]) = Ok 1 w'
    ∧ returned_values 1 w' = [udv]
    ∧ (∀ args,
         lua_check_session check_udata_by_class (set_stack w' (udv :: args))
         = Ok 101%N (set_stack w' (udv :: args)))
    ∧ lua_session_check_session_pending check_udata_by_class
        (set_stack w' [udv])
      = Ok 1 (set_stack w' [udv])
    ∧ (∀ g, ∃ w'',
         lua_session_register_async_event check_udata_by_class
           (set_stack w' [udv; LFunction g]) = Ok 1 w''
         ∧ returned_values 1 w'' = [LNil]
         ∧ sessions w'' !! 102%N = Some []).
Proof.
  apply (created_session_in_use sample_check_mempool
           (world_with_stack
              [LUserdata (mk_udata (Some "rspamd{mempool}") (Some 30%N));
               LFunction 8%N])
           (LUserdata (mk_udata (Some "rspamd{mempool}") (Some 30%N)))
           8%N [] 30%N).
  - reflexivity.
  - simpl. lia.
  - reflexivity.
  - discriminate.
Defined.

(** ** The modes of the benchmark do not mix *)

Lemma foldl_pointwise {A B} (f g : A → B → A) (l : list B) :
  (∀ a b, f a b = g a b) → ∀ a, foldl f a l = foldl g a l.
Proof.
  intros Hfg. induction l as [|b l IH]; intros a; simpl; [done|].
  by rewrite Hfg, IH.
Qed.

Section BenchModes.

Variable time : Type.
Variable time_zero : time.
Variable time_add time_sub : time → time → time.
Variable files : string → option (file_content time).

(** X16. Only the parser under measurement is consulted. In the gmime mode
    the counters, the diagnostics and the report of [main] are the same
    for any two content type parsers of rspamd and any two token
    comparisons, and in the normal mode for any two gmime parsers and
    token comparisons. *)
Theorem bench_modes_do_not_mix :
  ∀ (argv : list string)
    (parse1 parse2 : string → option rspamd_content_type)
    (gmime1 gmime2 : string → option gmime_content_type)
    (casecmp1 casecmp2 : string → string → Z),
    ((select_mode argv).2 = MODE_GMIME →
     bench_main time time_zero time_add time_sub parse1 gmime1 casecmp1 files argv
     = bench_main time time_zero time_add time_sub parse2 gmime1 casecmp2 files argv)
    ∧ ((select_mode argv).2 = MODE_NORMAL →
       bench_main time time_zero time_add time_sub parse1 gmime1 casecmp1 files argv
       = bench_main time time_zero time_add time_sub parse1 gmime2 casecmp2 files argv).
Proof.
  intros argv parse1 parse2 gmime1 gmime2 casecmp1 casecmp2.
  unfold bench_main. destruct (select_mode argv) as [start mode]. simpl.
  split; intros ->.
  - rewrite (foldl_pointwise
               (rspamd_process_file time time_add time_sub parse1 gmime1
                  casecmp1 files MODE_GMIME)
               (rspamd_process_file time time_add time_sub parse2 gmime1
                  casecmp2 files MODE_GMIME)); [done|].
    intros s fname. unfold rspamd_process_file.
    destruct (files fname) as [c|]; [|done].
    rewrite (foldl_pointwise
               (process_line time time_add time_sub parse1 gmime1 casecmp1
                  MODE_GMIME)
               (process_line time time_add time_sub parse2 gmime1 casecmp2
                  MODE_GMIME)); [done|].
    intros [tot out] [str [t1 t2]]. reflexivity.
  - rewrite (foldl_pointwise
               (rspamd_process_file time time_add time_sub parse1 gmime1
                  casecmp1 files MODE_NORMAL)
               (rspamd_process_file time time_add time_sub parse1 gmime2
                  casecmp2 files MODE_NORMAL)); [done|].
    intros s fname. unfold rspamd_process_file.
    destruct (files fname) as [c|]; [|done].
    rewrite (foldl_pointwise
               (process_line time time_add time_sub parse1 gmime1 casecmp1
                  MODE_NORMAL)
               (process_line time time_add time_sub parse1 gmime2 casecmp2
                  MODE_NORMAL)); [done|].
    intros [tot out] [str [t1 t2]]. reflexivity.
Qed.

End BenchModes.

Lemma bench_modes_do_not_mix_witness :
  bench_main Z 0 Z.add Z.sub sample_parse sample_gmime sample_casecmp
    sample_files ["bench"; "-g"; "headers.txt"]
  = bench_main Z 0 Z.add Z.sub (λ _, None) sample_gmime (λ _ _, 0)
      sample_files ["bench"; "-g"; "headers.txt"].
Proof.
  apply (proj1 (bench_modes_do_not_mix Z 0 Z.add Z.sub sample_files
                  ["bench"; "-g"; "headers.txt"]
                  sample_parse (λ _, None) sample_gmime sample_gmime
                  sample_casecmp (λ _ _, 0))).
  reflexivity.
Defined.

(* ===================================================================== *)
(** * Part VIII: the item and the Lua state of its conditions             *)
(* ===================================================================== *)

Import Symcache.

(** ** Destroying conditions *)

Lemma item_condition_destroy_ok c w :
  ∃ w', SymcacheLua.item_condition_destroy c w = Ok () w'
        ∧ stack (lua w') = stack (lua w)
        ∧ lua_addr w' = lua_addr w.
Proof.
  unfold SymcacheLua.item_condition_destroy.
  destruct (negb (cond_cb c =? -1) && negb (cond_L c =? nullptr)%N).
  - unfold bind, get. destruct (cond_L c =? lua_addr w)%N.
    + destruct (luaL_unref_released (cond_cb c) w)
        as (w' & H & Hst & _ & _ & Ha & _).
      by exists w'.
    + by exists w.
  - by exists w.
Qed.

Lemma destroy_conditions_ok cs :
  ∀ w, ∃ w', SymcacheLua.destroy_conditions cs w = Ok () w'
             ∧ stack (lua w') = stack (lua w)
             ∧ lua_addr w' = lua_addr w.
Proof.
  induction cs as [|c cs IH]; intros w; simpl.
  - by exists w.
  - destruct (item_condition_destroy_ok c w) as (w1 & H1 & Hst1 & Ha1).
    destruct (IH w1) as (w2 & H2 & Hst2 & Ha2).
    exists w2. rewrite (bind_ok _ _ _ _ _ H1).
    split_and!; [done|congruence|congruence].
Qed.

(** ** One registration *)

Lemma emplace_back_run grow L cbref cs cap w :
  ∃ cap' w',
    SymcacheLua.emplace_back grow L cbref cs cap w
    = Ok (cs ++ [mk_item_condition L cbref], cap') w'
    ∧ ((length cs < cap)%nat → cap' = cap ∧ w' = w)
    ∧ ((cap ≤ length cs)%nat →
       cap' = grow cap ∧ SymcacheLua.destroy_conditions cs w = Ok () w')
    ∧ stack (lua w') = stack (lua w)
    ∧ lua_addr w' = lua_addr w.
Proof.
  unfold SymcacheLua.emplace_back.
  destruct (length cs <? cap)%nat eqn:Hroom.
  - apply Nat.ltb_lt in Hroom. exists cap, w. split_and!; try done. lia.
  - apply Nat.ltb_ge in Hroom.
    destruct (destroy_conditions_ok cs w) as (w' & Hd & Hst & Ha).
    exists (grow cap), w'. rewrite (bind_ok _ _ _ _ _ Hd).
    split_and!; try done. lia.
Qed.

Lemma add_condition_normal_run grow L cbref it n cap w :
  specific it = Normal n →
  ∃ cap' w',
    SymcacheLua.add_condition grow L cbref it cap w
    = Ok (true,
          set_specific it
            (Normal {| func := func n; user_data := user_data n;
                       conditions := conditions n ++ [mk_item_condition L cbref] |}),
          cap') w'
    ∧ ((length (conditions n) < cap)%nat → cap' = cap ∧ w' = w)
    ∧ ((cap ≤ length (conditions n))%nat →
       cap' = grow cap
       ∧ SymcacheLua.destroy_conditions (conditions n) w = Ok () w')
    ∧ stack (lua w') = stack (lua w)
    ∧ lua_addr w' = lua_addr w.
Proof.
  intros Hn.
  destruct (emplace_back_run grow L cbref (conditions n) cap w)
    as (cap' & w' & He & Hroom & Hfull & Hst & Ha).
  exists cap', w'. split; [|done].
  unfold SymcacheLua.add_condition, is_virtual. rewrite Hn. simpl.
  unfold SymcacheLua.normal_item_add_condition.
  unfold bind at 1. unfold bind at 1. by rewrite He.
Qed.

Lemma add_condition_virtual_run grow L cbref it v cap w :
  specific it = Virtual v →
  SymcacheLua.add_condition grow L cbref it cap w = Ok (false, it, cap) w.
Proof.
  intros Hv. unfold SymcacheLua.add_condition, is_virtual. by rewrite Hv.
Qed.

(** The flag and the item of a registration do not depend on the Lua
    state or on the capacity: they are those of [add_condition] on the
    item alone. *)
Lemma add_condition_item_part grow L cbref it cap w :
  ∃ cap' w',
    SymcacheLua.add_condition grow L cbref it cap w
    = Ok ((add_condition L cbref it).1, (add_condition L cbref it).2, cap') w'.
Proof.
  destruct (specific it) as [n|v] eqn:Hs.
  - destruct (add_condition_normal_run grow L cbref it n cap w Hs)
      as (cap' & w' & H & _).
    exists cap', w'. by rewrite H, (add_condition_normal L cbref it n Hs).
  - exists cap, w.
    by rewrite (add_condition_virtual_run grow L cbref it v cap w Hs),
               (add_condition_virtual L cbref it v Hs).
Qed.

Lemma same_members_refl it : SymcacheLua.same_members it it.
Proof. unfold SymcacheLua.same_members. by split_and!. Qed.

Lemma same_members_trans a b c :
  SymcacheLua.same_members a b → SymcacheLua.same_members b c →
  SymcacheLua.same_members a c.
Proof.
  unfold SymcacheLua.same_members. intros Hab Hbc.
  destruct_and!. split_and!; congruence.
Qed.

Lemma same_members_set_specific it s :
  SymcacheLua.same_members (set_specific it s) it.
Proof. unfold SymcacheLua.same_members. by split_and!. Qed.

Lemma same_members_inc_frequency it :
  SymcacheLua.same_members (inc_frequency it) it.
Proof. unfold SymcacheLua.same_members. by split_and!. Qed.

(** C1. [add_condition] answers true exactly on the items that are not
    virtual. There the condition [(L, cbref)] stands at the end of the
    conditions of the callback data afterwards, behind the ones the item
    had, and the function, the user data, the statistics block and every
    other member of the item are as before. On a virtual item it answers
    false and the item, the capacity and the Lua state are as before. *)
Theorem add_condition_succeeds_iff_not_virtual :
  ∀ (grow : nat → nat) (L : Symcache.pointer) (cbref : Z) (it : cache_item)
    (cap : nat) (w : world),
    ∃ it' cap' w',
      SymcacheLua.add_condition grow L cbref it cap w
      = Ok (negb (is_virtual it), it', cap') w'
      ∧ match specific it with
        | Normal n =>
            is_virtual it = false
            ∧ specific it'
              = Normal {| func := func n; user_data := user_data n;
                          conditions :=
                            conditions n ++ [mk_item_condition L cbref] |}
            ∧ st it' = st it
            ∧ SymcacheLua.same_members it' it
        | Virtual _ => is_virtual it = true ∧ it' = it ∧ cap' = cap ∧ w' = w
        end.
Proof.
  intros grow L cbref it cap w. unfold is_virtual.
  destruct (specific it) as [n|v] eqn:Hs.
  - destruct (add_condition_normal_run grow L cbref it n cap w Hs)
      as (cap' & w' & H & _).
    eexists _, cap', w'. split; [exact H|].
    split_and!; try done; apply same_members_set_specific.
  - exists it, cap, w. split; [|done].
    by apply add_condition_virtual_run with (v := v).
Qed.

(** ** Several registrations *)

Lemma add_conditions_run grow regs :
  ∀ it n cap w, specific it = Normal n →
    ∃ it' cap' w',
      SymcacheLua.add_conditions grow regs it cap w
      = Ok (replicate (length regs) true, it', cap') w'
      ∧ specific it'
        = Normal {| func := func n; user_data := user_data n;
                    conditions :=
                      conditions n ++ map (λ r, mk_item_condition r.1 r.2) regs |}
      ∧ st it' = st it
      ∧ SymcacheLua.same_members it' it.
Proof.
  induction regs as [|[L cbref] regs IH]; intros it n cap w Hn; simpl.
  - exists it, cap, w. rewrite app_nil_r, Hn.
    split_and!; try done; try apply same_members_refl. by destruct n.
  - destruct (add_condition_normal_run grow L cbref it n cap w Hn)
      as (cap1 & w1 & H1 & _).
    rewrite (bind_ok _ _ _ _ _ H1). cbn [fst snd].
    destruct (IH (set_specific it
                    (Normal {| func := func n; user_data := user_data n;
                               conditions :=
                                 conditions n ++ [mk_item_condition L cbref] |}))
                 {| func := func n; user_data := user_data n;
                    conditions := conditions n ++ [mk_item_condition L cbref] |}
                 cap1 w1 eq_refl)
      as (it' & cap' & w' & H2 & Hspec & Hst & Hsame).
    exists it', cap', w'. rewrite (bind_ok _ _ _ _ _ H2). cbn [fst snd].
    split_and!; try done.
    rewrite Hspec. simpl. by rewrite <- app_assoc.
Qed.

(** C4, amended. On an item that is not virtual every [add_condition]
    succeeds and the pairs [(L, cbref)] stand in the conditions of the
    item in registration order, behind the ones it had, whatever the
    capacity of the vector and the Lua state; [call] on the item looks at
    none of them and leaves the item and its counters as they are, so no
    skip and no miss is recorded by it. Whether the callbacks behind the
    stored references are still registered is not said. *)
Theorem conditions_kept_in_registration_order :
  ∀ (grow : nat → nat) (it : cache_item) (n : normal_item)
    (regs : list (Symcache.pointer * Z)) (cap : nat) (w : world),
    specific it = Normal n →
    ∃ it' cap' w',
      SymcacheLua.add_conditions grow regs it cap w
      = Ok (replicate (length regs) true, it', cap') w'
      ∧ specific it'
        = Normal {| func := func n; user_data := user_data n;
                    conditions :=
                      conditions n ++ map (λ r, mk_item_condition r.1 r.2) regs |}
      ∧ st it' = st it
      ∧ call it' = Some it'.
Proof.
  intros grow it n regs cap w Hn.
  destruct (add_conditions_run grow regs it n cap w Hn)
    as (it' & cap' & w' & H & Hspec & Hst & _).
  exists it', cap', w'. split_and!; try done.
  by apply call_normal with (n := {| func := func n; user_data := user_data n;
    conditions := conditions n ++ map (λ r, mk_item_condition r.1 r.2) regs |}).
Qed.

Lemma conditions_kept_in_registration_order_witness :
  let it := create_with_function 0%N 0 "SYM" 0 1%N 0%N FILTER 0 in
  ∃ it' cap' w',
    SymcacheLua.add_conditions SymcacheLua.double_capacity
      [(1%N, 5); (1%N, 9); (1%N, 2)] it 0 SymcacheLua.conditions_world
    = Ok ([true; true; true], it', cap') w'
    ∧ specific it'
      = Normal {| func := 1%N; user_data := 0%N;
                  conditions := [mk_item_condition 1%N 5; mk_item_condition 1%N 9;
                                 mk_item_condition 1%N 2] |}
    ∧ st it' = st it
    ∧ call it' = Some it'.
Proof.
  exact (conditions_kept_in_registration_order SymcacheLua.double_capacity
           (create_with_function 0%N 0 "SYM" 0 1%N 0%N FILTER 0)
           {| func := 1%N; user_data := 0%N; conditions := [] |}
           [(1%N, 5); (1%N, 9); (1%N, 2)] 0%nat SymcacheLua.conditions_world
           eq_refl).
Defined.

(** ** Sequences of member calls *)

Lemma increments_cons m ms :
  SymcacheLua.increments (m :: ms)
  = (if SymcacheLua.is_increment m then 1 else 0) + SymcacheLua.increments ms.
Proof.
  unfold SymcacheLua.increments. rewrite filter_cons.
  destruct m; simpl; lia.
Qed.

Lemma registrations_add L cbref ms :
  SymcacheLua.registrations (SymcacheLua.m_add_condition L cbref :: ms)
  = mk_item_condition L cbref :: SymcacheLua.registrations ms.
Proof. reflexivity. Qed.

Lemma hits_inc_frequency it : hits (st (inc_frequency it)) = g_atomic_int_inc (hits (st it)).
Proof. reflexivity. Qed.

Lemma hits_advance h k :
  (g_atomic_int_inc h + k) mod 2 ^ 32 = (h + (1 + k)) mod 2 ^ 32.
Proof.
  unfold g_atomic_int_inc. rewrite Z.add_mod_idemp_l by lia. f_equal. lia.
Qed.

Lemma g_atomic_int_inc_range h : 0 ≤ g_atomic_int_inc h < 2 ^ 32.
Proof. unfold g_atomic_int_inc. apply Z.mod_pos_bound. lia. Qed.

(** X3. A virtual item through any sequence of [add_condition] and
    [inc_frequency] calls: the run returns, the Lua state and the capacity
    are untouched, the item is still virtual with the same parent, and
    all that has changed is the hits counter, by the number of
    [inc_frequency] calls modulo 2^32. Every [add_condition] on it is
    refused, and it has no callback data that could be called. *)
Theorem member_calls_on_virtual :
  ∀ (grow : nat → nat) (ms : list SymcacheLua.member_call) (it : cache_item)
    (v : virtual_item) (cap : nat) (w : world),
    specific it = Virtual v →
    0 ≤ hits (st it) < 2 ^ 32 →
    ∃ it',
      SymcacheLua.run_members grow ms (it, cap) w = Ok (it', cap) w
      ∧ specific it' = Virtual v
      ∧ hits (st it') = (hits (st it) + SymcacheLua.increments ms) mod 2 ^ 32
      ∧ misses (st it') = misses (st it)
      ∧ skips (st it') = skips (st it)
      ∧ total_time (st it') = total_time (st it)
      ∧ frequency (st it') = frequency (st it)
      ∧ peaks (st it') = peaks (st it)
      ∧ SymcacheLua.same_members it' it
      ∧ call it' = None
      ∧ (∀ L cbref,
            SymcacheLua.add_condition grow L cbref it' cap w
            = Ok (false, it', cap) w).
Proof.
  intros grow ms. induction ms as [|m ms IH]; intros it v cap w Hv Hh.
  - exists it. simpl. change (SymcacheLua.increments []) with 0.
    rewrite Z.add_0_r, Z.mod_small by lia.
    split_and!;
      first [done | apply same_members_refl | (unfold call; by rewrite Hv)
            | (intros L cbref; by apply add_condition_virtual_run with (v := v))].
  - rewrite increments_cons. destruct m as [L cbref|]; cbn [SymcacheLua.is_increment].
    + destruct (IH it v cap w Hv Hh) as (it' & Hrun & Hrest).
      exists it'. split; [|by rewrite Z.add_0_l].
      cbn [SymcacheLua.run_members SymcacheLua.apply_member fst snd].
      unfold bind at 1. unfold bind at 1.
      rewrite (add_condition_virtual_run grow L cbref it v cap w Hv).
      exact Hrun.
    + destruct (IH (inc_frequency it) v cap w Hv (g_atomic_int_inc_range _))
        as (it' & Hrun & Hspec & Hhits & Hm & Hs & Ht & Hf & Hp & Hsame
            & Hcall & Hadd).
      exists it'. split; [exact Hrun|].
      rewrite hits_inc_frequency, hits_advance in Hhits.
      split_and!;
        first [done
              | (eapply same_members_trans;
                 [exact Hsame|apply same_members_inc_frequency])].
Qed.

Lemma member_calls_on_virtual_witness :
  let it := create_with_virtual 0%N 1 "ALIAS" 7 VIRTUAL 0 in
  ∃ it',
    SymcacheLua.run_members SymcacheLua.double_capacity
      [SymcacheLua.m_add_condition 1%N 5; SymcacheLua.m_inc_frequency;
       SymcacheLua.m_inc_frequency]
      (it, 0%nat) SymcacheLua.conditions_world
    = Ok (it', 0%nat) SymcacheLua.conditions_world
    ∧ specific it' = Virtual {| parent_id := 7; parent := None |}
    ∧ hits (st it') = 2
    ∧ misses (st it') = misses (st it)
    ∧ skips (st it') = skips (st it)
    ∧ total_time (st it') = total_time (st it)
    ∧ frequency (st it') = frequency (st it)
    ∧ peaks (st it') = peaks (st it)
    ∧ SymcacheLua.same_members it' it
    ∧ call it' = None
    ∧ (∀ L cbref,
          SymcacheLua.add_condition SymcacheLua.double_capacity L cbref it' 0
            SymcacheLua.conditions_world
          = Ok (false, it', 0%nat) SymcacheLua.conditions_world).
Proof.
  apply (member_calls_on_virtual SymcacheLua.double_capacity
           [SymcacheLua.m_add_condition 1%N 5; SymcacheLua.m_inc_frequency;
            SymcacheLua.m_inc_frequency]
           (create_with_virtual 0%N 1 "ALIAS" 7 VIRTUAL 0)
           {| parent_id := 7; parent := None |} 0%nat
           SymcacheLua.conditions_world); [reflexivity|].
  simpl. lia.
Defined.

(** X4. An item with callback data through any sequence of
    [add_condition] and [inc_frequency] calls: the run returns; the
    conditions of the [add_condition] calls stand behind the ones the
    item had, in call order; the hits counter is advanced by the number
    of [inc_frequency] calls modulo 2^32 and nothing else of the item has
    changed, so the order between increments and registrations does not
    matter; [call] on the outcome changes nothing; the Lua stack is as
    before; and as long as the vector has room for every registration,
    its capacity and the whole Lua state are as before. *)
Theorem member_calls_on_normal :
  ∀ (grow : nat → nat) (ms : list SymcacheLua.member_call) (it : cache_item)
    (n : normal_item) (cap : nat) (w : world),
    specific it = Normal n →
    0 ≤ hits (st it) < 2 ^ 32 →
    ∃ it' cap' w',
      SymcacheLua.run_members grow ms (it, cap) w = Ok (it', cap') w'
      ∧ specific it'
        = Normal {| func := func n; user_data := user_data n;
                    conditions := conditions n ++ SymcacheLua.registrations ms |}
      ∧ hits (st it') = (hits (st it) + SymcacheLua.increments ms) mod 2 ^ 32
      ∧ misses (st it') = misses (st it)
      ∧ skips (st it') = skips (st it)
      ∧ total_time (st it') = total_time (st it)
      ∧ frequency (st it') = frequency (st it)
      ∧ peaks (st it') = peaks (st it)
      ∧ SymcacheLua.same_members it' it
      ∧ call it' = Some it'
      ∧ stack (lua w') = stack (lua w)
      ∧ ((length (conditions n) + length (SymcacheLua.registrations ms) ≤ cap)%nat →
         cap' = cap ∧ w' = w).
Proof.
  intros grow ms. induction ms as [|m ms IH]; intros it n cap w Hn Hh.
  - exists it, cap, w. simpl. change (SymcacheLua.increments []) with 0.
    rewrite Z.add_0_r, Z.mod_small by lia. rewrite app_nil_r.
    split_and!;
      first [done | apply same_members_refl | by apply call_normal with (n := n)
            | (rewrite Hn; by destruct n)].
  - rewrite increments_cons. destruct m as [L cbref|]; cbn [SymcacheLua.is_increment].
    + destruct (add_condition_normal_run grow L cbref it n cap w Hn)
        as (cap1 & w1 & H1 & Hroom & _ & Hst1 & _).
      destruct (IH (set_specific it
                      (Normal {| func := func n; user_data := user_data n;
                                 conditions :=
                                   conditions n ++ [mk_item_condition L cbref] |}))
                   {| func := func n; user_data := user_data n;
                      conditions := conditions n ++ [mk_item_condition L cbref] |}
                   cap1 w1 eq_refl Hh)
        as (it' & cap' & w' & Hrun & Hspec & Hhits & Hm & Hs & Ht & Hf & Hp
            & Hsame & Hcall & Hst & Hcap).
      exists it', cap', w'. split.
      { cbn [SymcacheLua.run_members SymcacheLua.apply_member fst snd].
        unfold bind at 1. unfold bind at 1. rewrite H1. exact Hrun. }
      rewrite Z.add_0_l.
      rewrite registrations_add.
      split_and!; try done.
      * rewrite Hspec. cbn [func user_data conditions]. by rewrite <- app_assoc.
      * congruence.
      * intros Hle. cbn [conditions length] in Hcap. rewrite length_app in Hcap.
        cbn [length] in Hle, Hcap.
        destruct Hroom as [-> ->]; [lia|]. apply Hcap. lia.
    + destruct (IH (inc_frequency it) n cap w Hn (g_atomic_int_inc_range _))
        as (it' & cap' & w' & Hrun & Hspec & Hhits & Hm & Hs & Ht & Hf & Hp
            & Hsame & Hcall & Hst & Hcap).
      exists it', cap', w'. split; [exact Hrun|].
      rewrite hits_inc_frequency, hits_advance in Hhits.
      split_and!;
        first [done
              | (eapply same_members_trans;
                 [exact Hsame|apply same_members_inc_frequency])].
Qed.

Lemma member_calls_on_normal_witness :
  let it := create_with_function 0%N 0 "SYM" 0 1%N 0%N FILTER 0 in
  ∃ it' cap' w',
    SymcacheLua.run_members SymcacheLua.double_capacity
      [SymcacheLua.m_inc_frequency; SymcacheLua.m_add_condition 1%N 5;
       SymcacheLua.m_add_condition 1%N 9; SymcacheLua.m_inc_frequency]
      (it, 2%nat) SymcacheLua.conditions_world
    = Ok (it', cap') w'
    ∧ specific it'
      = Normal {| func := 1%N; user_data := 0%N;
                  conditions := [mk_item_condition 1%N 5; mk_item_condition 1%N 9] |}
    ∧ hits (st it') = 2
    ∧ misses (st it') = misses (st it)
    ∧ skips (st it') = skips (st it)
    ∧ total_time (st it') = total_time (st it)
    ∧ frequency (st it') = frequency (st it)
    ∧ peaks (st it') = peaks (st it)
    ∧ SymcacheLua.same_members it' it
    ∧ call it' = Some it'
    ∧ stack (lua w') = stack (lua SymcacheLua.conditions_world)
    ∧ ((0 + 2 ≤ 2)%nat → cap' = 2%nat ∧ w' = SymcacheLua.conditions_world).
Proof.
  apply (member_calls_on_normal SymcacheLua.double_capacity
           [SymcacheLua.m_inc_frequency; SymcacheLua.m_add_condition 1%N 5;
            SymcacheLua.m_add_condition 1%N 9; SymcacheLua.m_inc_frequency]
           (create_with_function 0%N 0 "SYM" 0 1%N 0%N FILTER 0)
           (mk_normal_item 1%N 0%N []) 2%nat
           SymcacheLua.conditions_world); [reflexivity|].
  simpl. lia.
Defined.

(** ** A full vector *)

Lemma luaL_unref_no_function ref w :
  free_list_head_ok w →
  ∃ w', luaL_unref ref w = Ok () w'
        ∧ free_list_head_ok w'
        ∧ lua_addr w' = lua_addr w
        ∧ (∀ k, SymcacheLua.no_function w k → SymcacheLua.no_function w' k)
        ∧ (0 ≤ ref → SymcacheLua.no_function w' ref).
Proof.
  intros Hhead.
  destruct (luaL_unref_released ref w)
    as (w' & Hw' & _ & Hreg & Hneg & Ha & _).
  exists w'. split; [exact Hw'|].
  destruct (Z.lt_ge_cases ref 0) as [Hlt|Hge].
  - rewrite (Hneg Hlt). split_and!; try done. lia.
  - destruct (Hreg Hge) as (H0 & Hslot & Hother).
    assert (Hnew : SymcacheLua.no_function w' ref).
    { intros f Hf. destruct (decide (ref = FREELIST_REF)) as [->|Hne].
      - rewrite H0 in Hf. discriminate.
      - specialize (Hslot Hne). rewrite Hf in Hslot. simpl in Hslot.
        unfold free_list_head_ok in Hhead.
        destruct (registry (lua w) !! FREELIST_REF) as [[]|];
          simpl in *; done. }
    split_and!; try done.
    + unfold free_list_head_ok. by rewrite H0.
    + intros k Hk. destruct (decide (k = ref)) as [->|Hkr]; [done|].
      destruct (decide (k = FREELIST_REF)) as [->|Hk0].
      * intros f Hf. rewrite H0 in Hf. discriminate.
      * intros f. rewrite (Hother k Hk0 Hkr). apply Hk.
Qed.

Lemma item_condition_destroy_no_function c w :
  free_list_head_ok w →
  ∃ w', SymcacheLua.item_condition_destroy c w = Ok () w'
        ∧ free_list_head_ok w'
        ∧ lua_addr w' = lua_addr w
        ∧ (∀ k, SymcacheLua.no_function w k → SymcacheLua.no_function w' k)
        ∧ (SymcacheLua.releasable w c → SymcacheLua.no_function w' (cond_cb c)).
Proof.
  intros Hhead. unfold SymcacheLua.item_condition_destroy, SymcacheLua.releasable.
  destruct (negb (cond_cb c =? -1) && negb (cond_L c =? nullptr)%N) eqn:Hguard.
  - unfold bind, get. destruct (cond_L c =? lua_addr w)%N eqn:HL.
    + destruct (luaL_unref_no_function (cond_cb c) w Hhead)
        as (w' & H & Hh & Ha & Hkeep & Hnew).
      exists w'. split_and!; try done. intros (_ & _ & Hpos). by apply Hnew.
    + exists w. split_and!; try done. intros (HLw & _).
      apply N.eqb_neq in HL. done.
  - exists w. split_and!; try done. intros (_ & Hnn & Hpos).
    apply andb_false_iff in Hguard as [Hg|Hg]; apply negb_false_iff in Hg.
    + apply Z.eqb_eq in Hg. lia.
    + apply N.eqb_eq in Hg. done.
Qed.

Lemma destroy_conditions_no_function cs :
  ∀ w, free_list_head_ok w →
    ∃ w', SymcacheLua.destroy_conditions cs w = Ok () w'
          ∧ free_list_head_ok w'
          ∧ lua_addr w' = lua_addr w
          ∧ (∀ k, SymcacheLua.no_function w k → SymcacheLua.no_function w' k)
          ∧ (∀ c, c ∈ cs → SymcacheLua.releasable w c →
                  SymcacheLua.no_function w' (cond_cb c)).
Proof.
  induction cs as [|c cs IH]; intros w Hhead; simpl.
  - exists w. split_and!; try done. intros c Hc. by apply elem_of_nil in Hc.
  - destruct (item_condition_destroy_no_function c w Hhead)
      as (w1 & H1 & Hh1 & Ha1 & Hkeep1 & Hnew1).
    destruct (IH w1 Hh1) as (w2 & H2 & Hh2 & Ha2 & Hkeep2 & Hnew2).
    exists w2. rewrite (bind_ok _ _ _ _ _ H1).
    split_and!; try done.
    + congruence.
    + intros k Hk. by apply Hkeep2, Hkeep1.
    + intros c' Hc' Hrel. apply elem_of_cons in Hc' as [->|Hin].
      * by apply Hkeep2, Hnew1.
      * apply Hnew2; [done|].
        unfold SymcacheLua.releasable in *. by rewrite Ha1.
Qed.

(** X17. A registration on a full vector. When the conditions of an item
    fill the capacity of their vector, the next [add_condition] still
    succeeds and appends its pair, and the vector moves to the grown
    capacity; but the move destroys the old elements, and their
    destructor releases the callbacks of the conditions already attached:
    for every such condition of the Lua state at hand, with a state
    pointer that is not null and a reference that is not negative, the
    registry holds no function under its reference afterwards, while the
    item still carries the pair. The free list of the registry is taken
    to have nil or a number at its head, as [luaL_ref] and [luaL_unref]
    leave it. *)
Theorem growing_releases_attached_callbacks :
  ∀ (grow : nat → nat) (it : cache_item) (n : normal_item) (cap : nat)
    (L : Symcache.pointer) (cbref : Z) (w : world),
    specific it = Normal n →
    (cap ≤ length (conditions n))%nat →
    free_list_head_ok w →
    ∃ it' w',
      SymcacheLua.add_condition grow L cbref it cap w
      = Ok (true, it', grow cap) w'
      ∧ specific it'
        = Normal {| func := func n; user_data := user_data n;
                    conditions := conditions n ++ [mk_item_condition L cbref] |}
      ∧ stack (lua w') = stack (lua w)
      ∧ (∀ c, c ∈ conditions n → SymcacheLua.releasable w c →
              c ∈ match specific it' with
                  | Normal n' => conditions n'
                  | Virtual _ => []
                  end
              ∧ ∀ f, registry (lua w') !! cond_cb c ≠ Some (LFunction f)).
Proof.
  intros grow it n cap L cbref w Hn Hfull Hhead.
  destruct (add_condition_normal_run grow L cbref it n cap w Hn)
    as (cap' & w' & H & _ & Hgrow & Hst & _).
  destruct (Hgrow Hfull) as [-> Hd].
  destruct (destroy_conditions_no_function (conditions n) w Hhead)
    as (w2 & Hd2 & _ & _ & _ & Hnew).
  rewrite Hd in Hd2. injection Hd2 as <-.
  eexists _, w'. split; [exact H|]. split_and!; try done.
  intros c Hc Hrel. split.
  - cbn [specific set_specific conditions]. apply elem_of_app. by left.
  - by apply Hnew.
Qed.

Lemma growing_releases_attached_callbacks_witness :
  let it := create_with_function 0%N 0 "SYM" 0 1%N 0%N FILTER 0 in
  ∃ it1 it2 w2,
    SymcacheLua.add_condition SymcacheLua.double_capacity 1%N 5 it 0
      SymcacheLua.conditions_world
    = Ok (true, it1, 1%nat) SymcacheLua.conditions_world
    ∧ SymcacheLua.add_condition SymcacheLua.double_capacity 1%N 9 it1 1
        SymcacheLua.conditions_world
      = Ok (true, it2, 2%nat) w2
    ∧ specific it2
      = Normal {| func := 1%N; user_data := 0%N;
                  conditions := [mk_item_condition 1%N 5; mk_item_condition 1%N 9] |}
    ∧ registry (lua SymcacheLua.conditions_world) !! 5 = Some (LFunction 50%N)
    ∧ ∀ f, registry (lua w2) !! 5 ≠ Some (LFunction f).
Proof.
  destruct (growing_releases_attached_callbacks SymcacheLua.double_capacity
              (set_specific (create_with_function 0%N 0 "SYM" 0 1%N 0%N FILTER 0)
                 (Normal {| func := 1%N; user_data := 0%N;
                            conditions := [mk_item_condition 1%N 5] |}))
              {| func := 1%N; user_data := 0%N;
                 conditions := [mk_item_condition 1%N 5] |}
              1%nat 1%N 9 SymcacheLua.conditions_world eq_refl
              ltac:(simpl; lia) ltac:(vm_compute; exact I))
    as (it2 & w2 & Hadd & Hspec & _ & Hrel).
  eexists _, it2, w2. split; [reflexivity|]. split; [exact Hadd|].
  split; [exact Hspec|]. split; [reflexivity|].
  apply (Hrel (mk_item_condition 1%N 5)).
  - constructor.
  - vm_compute. split_and!; [reflexivity|discriminate|discriminate].
Defined.

(** ** The variant of an item *)

Lemma apply_member_keeps_variant grow s m w :
  ∃ s' w', SymcacheLua.apply_member grow s m w = Ok s' w'
           ∧ is_virtual s'.1 = is_virtual s.1
           ∧ type s'.1 = type s.1.
Proof.
  destruct s as [it cap]. destruct m as [L cbref|]; cbn [SymcacheLua.apply_member fst snd].
  - destruct (specific it) as [n|v] eqn:Hs.
    + destruct (add_condition_normal_run grow L cbref it n cap w Hs)
        as (cap' & w' & H & _).
      eexists _, w'. rewrite (bind_ok _ _ _ _ _ H). split; [reflexivity|].
      cbn [fst snd]. unfold is_virtual at 2. by rewrite Hs.
    + eexists _, w.
      rewrite (bind_ok _ _ _ _ _ (add_condition_virtual_run grow L cbref it v cap w Hs)).
      by split.
  - by eexists _, w.
Qed.

Lemma apply_interface_keeps_variant grow (double : Type) resolve_edge recompute
    s (c : SymcacheLua.interface_call double) w :
  ∃ s' w',
    SymcacheLua.apply_interface grow double resolve_edge recompute s c w = Ok s' w'
    ∧ is_virtual s'.1 = is_virtual s.1
    ∧ type s'.1 = type s.1.
Proof.
  destruct c as [m|cache|cache|d|cur_time last_resort];
    cbn [SymcacheLua.apply_interface].
  - apply apply_member_keeps_variant.
  - eexists _, w. split; [reflexivity|]. destruct s as [it cap]. cbn [fst snd].
    unfold SymcacheLua.resolve_parent, is_virtual.
    destruct (specific it) as [n|v] eqn:Hs; cbn [fst snd specific set_specific type];
      by rewrite ?Hs.
  - by eexists _, w.
  - by eexists _, w.
  - by eexists _, w.
Qed.

Lemma is_filter_by_variant a b :
  is_virtual a = is_virtual b → type a = type b → is_filter a = is_filter b.
Proof.
  unfold is_virtual, is_filter. intros Hv ->.
  by destruct (specific a), (specific b).
Qed.

(** C2. An item holds callback data or virtual data and not both; the
    factory decides which ([create_with_function] gives an item that is
    not virtual, [create_with_virtual] a virtual one); no sequence of
    calls of its interface changes it, that is of [add_condition] and
    [inc_frequency] and of [resolve_parent], [process_deps] and
    [update_counters_check_peak], which the sources only declare; and
    [is_virtual] and [is_filter] are never both true. *)
Theorem variant_fixed_at_creation :
  (∀ pool i name prio f ud ty fl,
      specific (create_with_function pool i name prio f ud ty fl)
      = Normal {| func := f; user_data := ud; conditions := [] |}
      ∧ is_virtual (create_with_function pool i name prio f ud ty fl) = false)
  ∧ (∀ pool i name par ty fl,
      specific (create_with_virtual pool i name par ty fl)
      = Virtual {| parent_id := par; parent := None |}
      ∧ is_virtual (create_with_virtual pool i name par ty fl) = true)
  ∧ (∀ it,
      (is_virtual it = false ∧ ∃ n, specific it = Normal n)
      ∨ (is_virtual it = true ∧ is_filter it = false
         ∧ ∃ v, specific it = Virtual v))
  ∧ (∀ (grow : nat → nat) (double : Type)
       (resolve_edge : symcache → cache_item → cache_dependency → cache_dependency)
       (recompute : cache_item → double → double
                    → rspamd_symcache_item_stat * Z * Z * bool)
       (cs : list (SymcacheLua.interface_call double))
       (it : cache_item) (cap : nat) (w : world),
      ∃ it' cap' w',
        SymcacheLua.run_interface grow double resolve_edge recompute cs (it, cap) w
        = Ok (it', cap') w'
        ∧ is_virtual it' = is_virtual it
        ∧ is_filter it' = is_filter it
        ∧ match specific it, specific it' with
          | Normal _, Normal _ | Virtual _, Virtual _ => True
          | _, _ => False
          end)
  ∧ (∀ it, is_virtual it && is_filter it = false).
Proof.
  split_and!; try done.
  - intros it. unfold is_virtual, is_filter.
    destruct (specific it) as [n|v]; [left|right]; eauto.
  - intros grow double resolve_edge recompute cs.
    assert (Hrun : ∀ s w, ∃ s' w',
               SymcacheLua.run_interface grow double resolve_edge recompute cs s w
               = Ok s' w'
               ∧ is_virtual s'.1 = is_virtual s.1
               ∧ type s'.1 = type s.1).
    { induction cs as [|c cs IH]; intros s w.
      - by exists s, w.
      - destruct (apply_interface_keeps_variant grow double resolve_edge
                    recompute s c w) as (s1 & w1 & H1 & Hv1 & Ht1).
        destruct (IH s1 w1) as (s2 & w2 & H2 & Hv2 & Ht2).
        exists s2, w2. cbn [SymcacheLua.run_interface].
        rewrite (bind_ok _ _ _ _ _ H1). split_and!; [done|congruence|congruence]. }
    intros it cap w.
    destruct (Hrun (it, cap) w) as ([it' cap'] & w' & H & Hv & Ht).
    exists it', cap', w'. cbn [fst] in Hv, Ht. split_and!; try done.
    + by apply is_filter_by_variant.
    + unfold is_virtual in Hv. by destruct (specific it), (specific it').
  - intros it. unfold is_virtual, is_filter. by destruct (specific it).
Qed.
